(** * The optimize plugin of Snowpack ([plugins/plugin-optimize.ts])

    A shallow embedding of the default optimizer: the per-file transform
    [optimizeFile], the emitter [writeModulePreloadFile] and the [optimize]
    hook that drives them, followed by the properties the specification
    states about them.

    The plugin is effectful JavaScript.  Its effects are modelled by explicit
    state passing over a [State] that holds the file system, the shared
    [Set] of module paths, the esbuild service and a trace of what happened;
    exceptions are the left injection of a sum and never roll the state back.
    The one [await] inside [optimizeFile] is modelled by a suspended
    computation ([Awaiting]) that the event loop of [optimize] resumes. *)

From Stdlib Require Import ZArith String Ascii List Permutation.
From Stdlib Require Import Sorting.Sorted.
From stdpp Require Import base gmap strings list sorting.

Local Open Scope string_scope.
Local Open Scope Z_scope.
Local Open Scope list_scope.

#[local] Set Warnings "-clear-no-such-hyp".

(** ** JavaScript values and built-ins used by the plugin *)

(** An [Error] object: [err.toString()] renders as [name: message]. *)
Record JsError := mkJsError { err_name : string; err_message : string }.

Definition new_Error (msg : string) : JsError := mkJsError "Error" msg.

Definition toString (err : JsError) : string :=
  err_name err +:+ ": " +:+ err_message err.

(** A value that is either thrown or returned. *)
Definition result (A : Type) : Type := JsError + A.

Definition is_ok {A} (r : result A) : bool :=
  match r with inl _ => false | inr _ => true end.

(** The line feed and the double quote of the source's templates. *)
Definition newline : string := String (ascii_of_nat 10) EmptyString.
Definition dquote : string := String (ascii_of_nat 34) EmptyString.

(** Truthiness of an optional boolean property ([undefined] is falsy). *)
Definition truthy (b : option bool) : bool :=
  match b with Some true => true | _ => false end.

(** [String.prototype.substring(start, end)]: both indices are clamped to
    the string and swapped when [start > end]. *)
Definition clamp (len i : Z) : Z := Z.max 0 (Z.min i len).

Definition js_substring (str : string) (s e : Z) : string :=
  let len := Z.of_nat (String.length str) in
  let a := clamp len s in
  let b := clamp len e in
  let lo := Z.min a b in
  let hi := Z.max a b in
  substring (Z.to_nat lo) (Z.to_nat (hi - lo)) str.

(** [Array.prototype.join(sep)]. *)
Fixpoint js_join (sep : string) (l : list string) : string :=
  match l with
  | [] => EmptyString
  | [x] => x
  | x :: l' => x +:+ sep +:+ js_join sep l'
  end.

(** Spreading a string ([...str]) yields its characters one by one. *)
Fixpoint spread_string (str : string) : list string :=
  match str with
  | EmptyString => []
  | String c rest => String c EmptyString :: spread_string rest
  end.

(** A JavaScript [Set<string>]: no duplicates, iteration in insertion order. *)
Definition Set_add (x : string) (set : list string) : list string :=
  if decide (x ∈ set) then set else set ++ [x].

(** [Array.prototype.sort(compare)] is a stable sort; for a comparator that
    is a total preorder every stable sort returns the same array.  [a] stays
    in front of [b] unless [compare a b > 0]. *)
Fixpoint sort_insert (compare : string -> string -> Z) (x : string)
    (l : list string) : list string :=
  match l with
  | [] => [x]
  | y :: l' =>
      if 0 <? compare x y then y :: sort_insert compare x l' else x :: y :: l'
  end.

Definition js_sort (compare : string -> string -> Z) (l : list string)
    : list string :=
  foldr (sort_insert compare) [] l.

(** ** The file system ([fs])

    A map from absolute paths to regular files and directories.  Reading
    fails on a missing path and on a directory.  Writing fails on a
    directory, and on a path that does not exist yet when the directory it
    would be created in is missing or is a regular file; an existing regular
    file is overwritten.  Permissions are not modelled. *)

Inductive node :=
| File (content : string)
| Dir.

(** Messages follow Node's: reading a directory fails in [read], after the
    [open] that would have named the path. *)
Definition ENOENT (p : string) : JsError :=
  new_Error ("ENOENT: no such file or directory, open '" +:+ p +:+ "'").
Definition EISDIR_read : JsError :=
  new_Error "EISDIR: illegal operation on a directory, read".
Definition EISDIR_open (p : string) : JsError :=
  new_Error ("EISDIR: illegal operation on a directory, open '" +:+ p +:+ "'").

Definition fs_read (files : gmap string node) (p : string) : result string :=
  match files !! p with
  | Some (File c) => inr c
  | Some Dir => inl EISDIR_read
  | None => inl (ENOENT p)
  end.

Definition ENOTDIR (p : string) : JsError :=
  new_Error ("ENOTDIR: not a directory, open '" +:+ p +:+ "'").

(** The directory a path lies in: the path up to its last slash.  The empty
    result stands for the root (or the working directory), which exists. *)
Fixpoint has_slash (p : string) : bool :=
  match p with
  | EmptyString => false
  | String c rest => bool_decide (c = "/"%char) || has_slash rest
  end.

Fixpoint parent_dir (p : string) : string :=
  match p with
  | EmptyString => EmptyString
  | String c rest =>
      if has_slash rest then String c (parent_dir rest) else EmptyString
  end.

(** What [open(p, 'w')] fails with, if it fails. *)
Definition write_error (files : gmap string node) (p : string)
    : option JsError :=
  match files !! p with
  | Some Dir => Some (EISDIR_open p)
  | Some (File _) => None
  | None =>
      match p, parent_dir p with
      | EmptyString, _ => Some (ENOENT p)
      | _, EmptyString => None
      | _, parent =>
          match files !! parent with
          | Some Dir => None
          | Some (File _) => Some (ENOTDIR p)
          | None => Some (ENOENT p)
          end
      end
  end.

Definition fs_write (files : gmap string node) (p c : string)
    : result (gmap string node) :=
  match write_error files p with
  | Some err => inl err
  | None => inr (<[p := File c]> files)
  end.

(** ** Collaborators

    The helpers of [../util], Node's [path] module, es-module-lexer, the
    esbuild service and the engine's collation are not part of the plugin;
    the embedding is parametric in them. *)

(** An entry of the import list returned by es-module-lexer's [parse]:
    [imp_s] and [imp_e] delimit the specifier, [imp_d] is [-1] for a static
    import. *)
Record ImportSpecifier := mkImport { imp_s : Z; imp_e : Z; imp_d : Z }.

(** The minifier is taken to answer the same code in the same way; when it
    answers is up to the [schedule] of [optimize]. *)
Class Host := {
  (** [getExt(file).baseExt] *)
  baseExt : string -> string;
  (** [relativeURL(from, to)] *)
  relativeURL : string -> string -> string;
  (** [appendHTMLToHead(doc, htmlToAdd)] *)
  appendHTMLToHead : string -> string -> result string;
  path_dirname : string -> string;
  path_resolve : string -> string -> string;
  path_join : list string -> string;
  (** the imports component of [parse(code)] *)
  parse : string -> result (list ImportSpecifier);
  (** [esbuildService.transform(code, {minify: true})], its [js] field *)
  transform_minify : string -> result string;
  (** [a.localeCompare(b)] *)
  localeCompare : string -> string -> Z;
}.

(** ** Configuration *)

(** [config.buildOptions.metaDir], the one field of the configuration that
    the plugin reads. *)
Record SnowpackConfig := { metaDir : string }.

(** [exclude?: string | string[]] and the three optional flags. *)

Inductive Exclude :=
| ExcludeString (pattern : string)
| ExcludeArray (patterns : list string).

Record OptimizePluginOptions := {
  exclude : option Exclude;
  minifyCSS : option bool;
  minifyHTML : option bool;
  minifyJS : option bool;
}.

(** ** State and effects *)

Inductive ServiceState := NotStarted | Running | Stopped.

(** What the trace records: the start and the stop of the service, every
    call of [optimizeFile] ([Dispatch]) and the settling of the promise it
    returned ([Settle], with whether it was fulfilled), every file written,
    the emitter spreading the set ([ReadSet]), and how [optimize] ended. *)
Inductive Event :=
| StartService
| StopService
| Dispatch (file : string)
| Settle (file : string) (ok : bool)
| WriteFile (file : string)
| ReadSet
| PassReturn
| PassThrow (err : JsError).

Record State := mkState {
  files : gmap string node;
  modulesToPreload : list string;
  esbuildService : ServiceState;
  trace : list Event;
}.

(** Computations: a state transformer that returns or throws. *)
Definition M (A : Type) : Type := State -> result A * State.

Definition ret {A} (a : A) : M A := fun st => (inr a, st).
Definition throw {A} (err : JsError) : M A := fun st => (inl err, st).
Definition bind {A B} (m : M A) (k : A -> M B) : M B :=
  fun st =>
    match m st with
    | (inl err, st') => (inl err, st')
    | (inr a, st') => k a st'
    end.
Definition try_catch {A} (body : M A) (handler : JsError -> M A) : M A :=
  fun st =>
    match body st with
    | (inl err, st') => handler err st'
    | (inr a, st') => (inr a, st')
    end.
Definition lift {A} (r : result A) : M A := fun st => (r, st).

Notation "x <- m ;; k" := (bind m (fun x => k))
  (at level 100, m at next level, right associativity).
Notation "m ;;; k" := (bind m (fun _ => k))
  (at level 100, right associativity).

Definition record (ev : Event) (st : State) : State :=
  mkState (files st) (modulesToPreload st) (esbuildService st)
          (trace st ++ [ev]).

Definition log (ev : Event) : M unit := fun st => (inr tt, record ev st).

Definition readFileSync (file : string) : M string :=
  fun st => (fs_read (files st) file, st).

Definition writeFileSync (file code : string) : M unit :=
  fun st =>
    match fs_write (files st) file code with
    | inl err => (inl err, st)
    | inr files' =>
        (inr tt, mkState files' (modulesToPreload st) (esbuildService st)
                         (trace st ++ [WriteFile file]))
    end.

Definition add_module (p : string) : M unit :=
  fun st => (inr tt, mkState (files st) (Set_add p (modulesToPreload st))
                             (esbuildService st) (trace st)).

Definition set_service (s : ServiceState) (st : State) : State :=
  mkState (files st) (modulesToPreload st) s (trace st).

Definition new_Set (st : State) : State :=
  mkState (files st) [] (esbuildService st) (trace st).

Fixpoint forEach {A} (f : A -> M unit) (l : list A) : M unit :=
  match l with
  | [] => ret tt
  | x :: l' => f x ;;; forEach f l'
  end.

(** ** The glob enumerator

    A model of [glob.sync(pattern, {cwd, ignore})] for the patterns of this
    plugin: path segments separated by [/], the segment [**] (any number of
    directories), and [*] and [?] inside a segment.  It follows minimatch's
    [matchOne]: with [dot] unset a wildcard does not match a name that starts
    with a dot; ignore patterns are matched with [dot] set.  Braces, classes,
    extglobs, negation, comments and escapes are outside this fragment
    ([glob_fragment] below): what is proved of a pattern taken from the
    options is proved for the patterns of the fragment. *)

Fixpoint split_slash (str : string) : list string :=
  match str with
  | EmptyString => [EmptyString]
  | String c rest =>
      if decide (c = "/"%char) then EmptyString :: split_slash rest
      else match split_slash rest with
           | [] => [String c EmptyString]
           | seg :: segs => String c seg :: segs
           end
  end.

Fixpoint seg_match (p : string) : string -> bool :=
  match p with
  | EmptyString =>
      fun s => match s with EmptyString => true | _ => false end
  | String c p' =>
      if decide (c = "*"%char) then
        fix star (s : string) : bool :=
          seg_match p' s ||
          match s with EmptyString => false | String _ s' => star s' end
      else if decide (c = "?"%char) then
        fun s => match s with
                 | EmptyString => false
                 | String _ s' => seg_match p' s'
                 end
      else
        fun s => match s with
                 | EmptyString => false
                 | String d s' => bool_decide (c = d) && seg_match p' s'
                 end
  end.

Definition starts_with_dot (s : string) : bool :=
  match s with String c _ => bool_decide (c = "."%char) | _ => false end.

Definition starts_magic (p : string) : bool :=
  match p with
  | String c _ => bool_decide (c = "*"%char) || bool_decide (c = "?"%char)
  | _ => false
  end.

(** May a wildcard stand for the name [s]? *)
Definition swallowable (dot : bool) (s : string) : bool :=
  negb (bool_decide (s = ".")) && negb (bool_decide (s = "..")) &&
  (dot || negb (starts_with_dot s)).

Definition seg_ok (dot : bool) (p s : string) : bool :=
  negb (bool_decide (s = EmptyString)) && seg_match p s &&
  (negb (starts_magic p) || swallowable dot s).

Fixpoint path_match (dot : bool) (pat : list string) : list string -> bool :=
  match pat with
  | [] => fun segs => match segs with [] => true | _ => false end
  | p :: pat' =>
      if decide (p = "**") then
        match pat' with
        | [] => fun segs =>
                  match segs with
                  | [] => false
                  | _ => forallb (swallowable dot) segs
                  end
        | _ =>
            fix globstar (segs : list string) : bool :=
              match segs with
              | [] => false
              | s :: segs' =>
                  path_match dot pat' segs ||
                  (swallowable dot s && globstar segs')
              end
        end
      else
        fun segs =>
          match segs with
          | [] => false
          | s :: segs' => seg_ok dot p s && path_match dot pat' segs'
          end
  end.

Definition minimatch (dot : bool) (pattern path : string) : bool :=
  path_match dot (split_slash pattern) (split_slash path).

(** glob's [ignoreMap]: a pattern that ends in [/**] also ignores the
    directory it names. *)
Fixpoint drop_globstars (rev_pat : list string) : list string :=
  match rev_pat with
  | p :: rest => if decide (p = "**") then drop_globstars rest else rev_pat
  | [] => []
  end.

Definition gmatch (pattern path : string) : bool :=
  match reverse (split_slash pattern) with
  | p :: (_ :: _) as rest =>
      bool_decide (p = "**") &&
      path_match true (reverse (drop_globstars rest)) (split_slash path)
  | _ => false
  end.

Definition isIgnored (ignore : list string) (path : string) : bool :=
  existsb (fun pattern => minimatch true pattern path || gmatch pattern path)
          ignore.

(** The patterns of the fragment: written without the characters of
    braces, classes, extglobs, negation, comments and escapes, without
    blanks (minimatch trims a pattern) and without an empty segment between
    two slashes (minimatch drops it). *)
Definition outside_fragment (c : ascii) : bool :=
  bool_decide (c ∈ ["\"; "["; "]"; "{"; "}"; "("; ")"; "|"; "!"; "#"]%char) ||
  (nat_of_ascii c <=? 32)%nat.

Fixpoint double_slash (pattern : string) : bool :=
  match pattern with
  | String a (String b _ as rest) =>
      bool_decide (a = "/"%char) && bool_decide (b = "/"%char)
      || double_slash rest
  | _ => false
  end.

Definition glob_fragment (pattern : string) : bool :=
  forallb (fun c => negb (outside_fragment c)) (list_ascii_of_string pattern)
  && negb (double_slash pattern).

Fixpoint strip_prefix (prefix s : string) : option string :=
  match prefix, s with
  | EmptyString, _ => Some s
  | String a prefix', String b s' =>
      if decide (a = b) then strip_prefix prefix' s' else None
  | String _ _, EmptyString => None
  end.

(** The entries below [cwd], as paths relative to it. *)
Definition entries_below (cwd : string) (files : gmap string node)
    : list string :=
  omap (fun entry => strip_prefix (cwd +:+ "/") (fst entry))
       (map_to_list files).

(** The matches are returned sorted with [localeCompare] ([nosort] is off);
    directories are matches like any other entry ([nodir] is off). *)
Definition glob_sync (compare : string -> string -> Z) (pattern cwd : string)
    (ignore : list string) (files : gmap string node) : list string :=
  js_sort compare
    (filter (fun path => minimatch false pattern path = true
                         ∧ isIgnored ignore path = false)
            (entries_below cwd files)).

(** ** [optimizeFile] *)

(** What a call of the async function [optimizeFile] has become when it
    gives control back: a settled promise, or a call suspended at
    [await esbuildService.transform(code, ...)] with the rest of its body. *)
Inductive Async :=
| Settled (r : result unit)
| Awaiting (code : string) (resume : result string -> M unit).

Section Plugin.
Context `{Host}.
Variable config : SnowpackConfig.
Variable options : option OptimizePluginOptions.

(** [options.minifyJS]; reading a property of [undefined] is a TypeError. *)
Definition options_minifyJS : result (option bool) :=
  match options with
  | Some o => inr (minifyJS o)
  | None =>
      inl (mkJsError "TypeError" "Cannot read property 'minifyJS' of undefined")
  end.

(** [({d}) => d === -1] *)
Definition is_static (imp : ImportSpecifier) : bool := imp_d imp =? -1.

(** The error of the [catch] block of the script case. *)
Definition trouble (file : string) (err : JsError) : JsError :=
  new_Error ("Trouble optimizing JS: " +:+ file +:+ newline +:+ toString err).

(** The [try] block of the script case up to the [await]: the code read and
    whether minification was requested. *)
Definition scan_imports (file : string) : M (string * bool) :=
  code <- readFileSync file ;;
  imports <- lift (parse code) ;;
  forEach (fun imp =>
             add_module (path_resolve (path_dirname file)
                           (js_substring code (imp_s imp) (imp_e imp))))
          (filter (fun imp => is_static imp = true) imports) ;;;
  minify <- lift options_minifyJS ;;
  ret (code, truthy minify).

(** The rest of the [try] block, once the service has answered. *)
Definition finish_minify (file : string) (minified : result string) : M unit :=
  code <- lift minified ;;
  writeFileSync file code.

(** The call as it resumes: what the [try] block still has to do, under the
    [catch] of that block. *)
Definition resume_minify (file : string) (minified : result string) : M unit :=
  try_catch (finish_minify file minified)
            (fun err => throw (trouble file err)).

(** The link element of the markup case. *)
Definition preloadScript (file preloadModuleFile : string) : string :=
  "<link rel=" +:+ dquote +:+ "modulepreload" +:+ dquote +:+ " href=" +:+
  dquote +:+ relativeURL (path_dirname file) preloadModuleFile +:+ dquote +:+
  " />".

(** The [switch] on [baseExt] (lines 31 to 76 of the source): stylesheets
    and unknown extensions are left alone, scripts are scanned and, under
    [minifyJS], minified, markup gets the link. *)
Definition optimizeFile (file preloadModuleFile : string)
    : State -> Async * State :=
  fun st =>
    let ext := baseExt file in
    if decide (ext = ".css") then (Settled (inr tt), st)
    else if decide (ext = ".js" ∨ ext = ".mjs") then
      match scan_imports file st with
      | (inl err, st') => (Settled (inl (trouble file err)), st')
      | (inr (code, true), st') =>
          (Awaiting code (resume_minify file), st')
      | (inr (code, false), st') => (Settled (inr tt), st')
      end
    else if decide (ext = ".html") then
      let '(r, st') :=
        (code <- readFileSync file ;;
         code <- lift (appendHTMLToHead code
                         (preloadScript file preloadModuleFile)) ;;
         writeFileSync file code) st in
      (Settled r, st')
    else (Settled (inr tt), st).

(** ** [writeModulePreloadFile] *)

(** The template of line 88: [import '] and [';] around the relative URLs
    joined by [';], a line feed and [import ']. *)
Definition preload_code (dest : string) (sortedModules : list string) : string :=
  "import '" +:+
  js_join ("';" +:+ newline +:+ "import '")
          (map (fun url => relativeURL (path_dirname dest) url) sortedModules)
  +:+ "';".

(** Lines 86 to 91: spread the set, sort it, write the file. *)
Definition writeModulePreloadFile (dest : string) : M unit :=
  log ReadSet ;;;
  fun st =>
    let sortedModules := js_sort localeCompare (modulesToPreload st) in
    writeFileSync dest (preload_code dest sortedModules) st.

(** ** The [optimize] hook *)

(** The [ignore] option handed to glob: the metadata directory's pattern,
    then the spread of [(options && options.exclude) || []]. *)
Definition ignore_list : list string :=
  (metaDir config +:+ "/*") ::
  match options with
  | Some o =>
      match exclude o with
      | Some (ExcludeString pattern) => spread_string pattern
      | Some (ExcludeArray patterns) => patterns
      | None => []
      end
  | None => []
  end.

(** [allFiles.map((file) => optimizeFile({...}))]: every call runs, in
    order, up to its first [await] or to its end. *)
Fixpoint dispatch_all (buildDirectory preloadModuleFile : string)
    (allFiles : list string) (st : State) : list (string * Async) * State :=
  match allFiles with
  | [] => ([], st)
  | file :: rest =>
      let file' := path_join [buildDirectory; file] in
      let '(a, st1) :=
        optimizeFile file' preloadModuleFile (record (Dispatch file') st) in
      let st2 :=
        match a with
        | Settled r => record (Settle file' (is_ok r)) st1
        | Awaiting _ _ => st1
        end in
      let '(promises, st3) :=
        dispatch_all buildDirectory preloadModuleFile rest st2 in
      ((file', a) :: promises, st3)
  end.

(** [Promise.all] over promises that are already settled rejects with the
    first rejection in array order. *)
Fixpoint first_rejection (promises : list (string * Async)) : option JsError :=
  match promises with
  | [] => None
  | (_, Settled (inl err)) :: _ => Some err
  | _ :: rest => first_rejection rest
  end.

(** The calls still suspended in the service. *)
Fixpoint awaiting (promises : list (string * Async))
    : list (string * string * (result string -> M unit)) :=
  match promises with
  | [] => []
  | (file, Awaiting code resume) :: rest => (file, code, resume) :: awaiting rest
  | _ :: rest => awaiting rest
  end.

(** The order in which the service answers is not fixed by the program; a
    [schedule] picks it. *)
Fixpoint insert_at {A} (n : nat) (x : A) (l : list A) : list A :=
  match n, l with
  | O, _ => x :: l
  | S _, [] => [x]
  | S n', y :: l' => y :: insert_at n' x l'
  end.

Fixpoint arrange {A} (schedule : list nat) (l : list A) : list A :=
  match l with
  | [] => []
  | x :: l' => insert_at (hd O schedule) x (arrange (tl schedule) l')
  end.

(** The service answers the suspended calls one after the other and each
    runs to its end.  [Promise.all] rejects at the first rejection, which
    makes [optimize] throw; the calls that are still suspended are resumed
    all the same when their answer comes.  [thrown] tells whether [optimize]
    has already thrown. *)
Fixpoint resume_all (thrown : option JsError)
    (tasks : list (string * string * (result string -> M unit)))
    (st : State) : option JsError * State :=
  match tasks with
  | [] => (thrown, st)
  | (file, code, resume) :: rest =>
      let '(r, st1) := resume (transform_minify code) st in
      let st2 := record (Settle file (is_ok r)) st1 in
      match thrown, r with
      | None, inl err => resume_all (Some err) rest (record (PassThrow err) st2)
      | _, _ => resume_all thrown rest st2
      end
  end.

(** The destination of the aggregator file. *)
Definition preloadModuleFile (buildDirectory : string) : string :=
  path_join [buildDirectory; metaDir config; "module-preload.mjs"].

(** [glob.sync('**/*', {cwd: buildDirectory, ignore: [...]})] *)
Definition scan (buildDirectory : string) (files : gmap string node)
    : list string :=
  glob_sync localeCompare "**/*" buildDirectory ignore_list files.

(** The hook (lines 96 to 129).  [esbuild.startService()], the lexer's
    [init] and the glob are taken to succeed.  The result is the outcome of the hook and the
    state when every call it made has run to its end. *)
Definition optimize (buildDirectory : string) (schedule : list nat)
    (st0 : State) : result unit * State :=
  let st1 := record StartService (set_service Running st0) in
  let allFiles := scan buildDirectory (files st1) in
  let st2 := new_Set st1 in
  let dest := preloadModuleFile buildDirectory in
  let '(promises, st3) := dispatch_all buildDirectory dest allFiles st2 in
  let answers := arrange schedule (awaiting promises) in
  match first_rejection promises with
  | Some err => (inl err, snd (resume_all (Some err) answers
                                          (record (PassThrow err) st3)))
  | None =>
      match resume_all None answers st3 with
      | (Some err, st4) => (inl err, st4)
      | (None, st4) =>
          match writeModulePreloadFile dest st4 with
          | (inl err, st5) => (inl err, record (PassThrow err) st5)
          | (inr _, st5) =>
              (inr tt, record PassReturn
                         (record StopService (set_service Stopped st5)))
          end
      end
  end.

End Plugin.

(** ** A host for examples

    Small stand-ins for the collaborators, enough to run the plugin on the
    example trees below.  On those inputs they agree with Node's [path], with
    [relativeURL] and with the engine's collation; [parse] and the minifier
    are tables over the example sources. *)

Module Sample.

Fixpoint lower (s : string) : string :=
  match s with
  | EmptyString => EmptyString
  | String c rest =>
      let n := nat_of_ascii c in
      String (if (65 <=? n)%nat && (n <=? 90)%nat
              then ascii_of_nat (n + 32) else c)
             (lower rest)
  end.

Fixpoint compare_codes (a b : string) : Z :=
  match a, b with
  | EmptyString, EmptyString => 0
  | EmptyString, String _ _ => -1
  | String _ _, EmptyString => 1
  | String x a', String y b' =>
      let n := Z.of_nat (nat_of_ascii x) in
      let m := Z.of_nat (nat_of_ascii y) in
      if n <? m then -1 else if m <? n then 1 else compare_codes a' b'
  end.

(** Collation of ASCII letters: letters first compare without regard to
    case, and on a tie the lower-case letter comes first. *)
Definition collate (a b : string) : Z :=
  let primary := compare_codes (lower a) (lower b) in
  if primary =? 0 then - compare_codes a b else primary.

Definition dirname (p : string) : string :=
  js_join "/" (removelast (split_slash p)).

Fixpoint last_dot_suffix (s : string) : option string :=
  match s with
  | EmptyString => None
  | String c rest =>
      match last_dot_suffix rest with
      | Some ext => Some ext
      | None => if decide (c = "."%char) then Some s else None
      end
  end.

Definition extname (p : string) : string :=
  match List.last (split_slash p) EmptyString with
  | String _ rest => default EmptyString (last_dot_suffix rest)
  | EmptyString => EmptyString
  end.

Definition resolve (dir spec : string) : string :=
  match strip_prefix "./" spec with
  | Some rest => dir +:+ "/" +:+ rest
  | None =>
      match strip_prefix "/" spec with
      | Some _ => spec
      | None => dir +:+ "/" +:+ spec
      end
  end.

Definition relative (from to : string) : string :=
  match strip_prefix (from +:+ "/") to with
  | Some rest => "./" +:+ rest
  | None =>
      match strip_prefix (dirname from +:+ "/") to with
      | Some rest => "../" +:+ rest
      | None => to
      end
  end.

(** The document with [html] put in front of its first [</head>]. *)
Fixpoint before_head_close (html doc : string) : option string :=
  match strip_prefix "</head>" doc with
  | Some _ => Some (html +:+ doc)
  | None =>
      match doc with
      | EmptyString => None
      | String c rest => String c <$> before_head_close html rest
      end
  end.

Definition main_js : string := "import './util.js'; import('./lazy.js');".
Definition lazy_js : string := "import('./util.js');".
Definition broken_js : string := "import {".
Definition big_js : string := "export const answer = 42 ;".
Definition invalid_js : string := "const = 1;".

#[export] Instance host : Host := {|
  baseExt := fun file => lower (extname file);
  relativeURL := relative;
  appendHTMLToHead := fun doc html =>
    match before_head_close html doc with
    | Some doc' => inr doc'
    | None => inl (new_Error "No <head> tag found in HTML")
    end;
  path_dirname := dirname;
  path_resolve := resolve;
  path_join := js_join "/";
  parse := fun code =>
    if decide (code = main_js) then inr [mkImport 8 17 (-1); mkImport 27 38 20]
    else if decide (code = lazy_js) then inr [mkImport 7 18 0]
    else if decide (code = broken_js) then inl (new_Error "Parse error @:1:9")
    else inr [];
  transform_minify := fun code =>
    if decide (code = big_js) then inr "export const answer=42;"
    else if decide (code = invalid_js) then
      inl (new_Error "Transform failed with 1 error")
    else inr code;
  localeCompare := collate;
|}.

(** Canonical equivalence, as far as the examples need it: the letter [e]
    followed by a combining acute accent is the same text as the precomposed
    letter, and collation must not tell them apart.  Strings hold UTF-8
    bytes. *)
Definition e_acute : string :=
  String (ascii_of_nat 195) (String (ascii_of_nat 169) EmptyString).
Definition e_combining : string :=
  String "e" (String (ascii_of_nat 204) (String (ascii_of_nat 129) EmptyString)).

Fixpoint compose (s : string) : string :=
  match s with
  | String a (String b (String c rest) as tail) =>
      if decide (String a (String b (String c EmptyString)) = e_combining)
      then e_acute +:+ compose rest
      else String a (compose tail)
  | String a tail => String a (compose tail)
  | EmptyString => EmptyString
  end.

Definition collate_canonical (a b : string) : Z :=
  collate (compose a) (compose b).

Definition canonical_host : Host := {|
  baseExt := baseExt (Host := host);
  relativeURL := relativeURL (Host := host);
  appendHTMLToHead := appendHTMLToHead (Host := host);
  path_dirname := path_dirname (Host := host);
  path_resolve := path_resolve (Host := host);
  path_join := path_join (Host := host);
  parse := parse (Host := host);
  transform_minify := transform_minify (Host := host);
  localeCompare := collate_canonical;
|}.

Definition config : SnowpackConfig := {| metaDir := "__snowpack__" |}.

Definition options (minify : bool) : option OptimizePluginOptions :=
  Some {| exclude := None; minifyCSS := None; minifyHTML := None;
          minifyJS := Some minify |}.

Definition initial (files : list (string * node)) : State :=
  mkState (list_to_map files) [] NotStarted [].

End Sample.

(** * Vocabulary of the properties *)

(** The comparator behaves as an order on the strings of [universe]. *)
Definition consistent_on (compare : string -> string -> Z)
    (universe : list string) : Prop :=
  ∀ a b, a ∈ universe → b ∈ universe → 0 < compare a b → compare b a <= 0.
Definition transitive_on (compare : string -> string -> Z)
    (universe : list string) : Prop :=
  ∀ a b c, a ∈ universe → b ∈ universe → c ∈ universe →
    compare a b <= 0 → compare b c <= 0 → compare a c <= 0.
Definition no_ties_on (compare : string -> string -> Z)
    (universe : list string) : Prop :=
  ∀ a b, a ∈ universe → b ∈ universe →
    compare a b <= 0 → compare b a <= 0 → a = b.

Definition compare_le (compare : string -> string -> Z) (a b : string)
    : Prop :=
  compare a b <= 0.

(** [a] comes before [b] in the iteration order of a set or an array. *)
Definition precedes (a b : string) (l : list string) : Prop :=
  [a; b] `sublist_of` l.

(** Byte order: lexicographic on the character codes. *)
Definition byte_le (a b : string) : Prop := String.leb a b = true.

(** The state with another set of modules. *)
Definition with_modules (set : list string) (st : State) : State :=
  mkState (files st) set (esbuildService st) (trace st).

Definition add_all (paths set : list string) : list string :=
  foldl (fun set p => Set_add p set) set paths.

Definition specifier_path `{Host} (file code : string) (imp : ImportSpecifier)
    : string :=
  path_resolve (path_dirname file) (js_substring code (imp_s imp) (imp_e imp)).

Definition static_paths `{Host} (file code : string)
    (imports : list ImportSpecifier) : list string :=
  map (specifier_path file code)
      (filter (fun imp => is_static imp = true) imports).

(** What a trace says was dispatched, settled, failed and written. *)
Definition dispatched (evs : list Event) : list string :=
  omap (fun ev => match ev with Dispatch f => Some f | _ => None end) evs.
Definition settled (evs : list Event) : list string :=
  omap (fun ev => match ev with Settle f _ => Some f | _ => None end) evs.
Definition failed (evs : list Event) : list string :=
  omap (fun ev => match ev with Settle f false => Some f | _ => None end) evs.
Definition written (evs : list Event) : list string :=
  omap (fun ev => match ev with WriteFile f => Some f | _ => None end) evs.

(** Events of a transform, and events that may follow a rejection. *)
Definition transform_event (ev : Event) : Prop :=
  match ev with Dispatch _ | Settle _ _ | WriteFile _ => True | _ => False end.
Definition late_event (ev : Event) : Prop :=
  match ev with Settle _ _ | WriteFile _ | PassThrow _ => True | _ => False end.

(** Events of a call that resumes after the service has answered it. *)
Definition answer_event (ev : Event) : Prop :=
  match ev with Settle _ _ | WriteFile _ => True | _ => False end.

(** What a computation did between two states: the events it appended; it
    left the service alone and changed no file it did not write. *)
Record effect (st st' : State) (evs : list Event) : Prop := {
  eff_trace : trace st' = trace st ++ evs;
  eff_service : esbuildService st' = esbuildService st;
  eff_files : ∀ p, p ∉ written evs → files st' !! p = files st !! p;
}.

(** [minifyJS] is set. *)
Definition minify_on (options : option OptimizePluginOptions) : Prop :=
  ∃ o, options = Some o ∧ truthy (minifyJS o) = true.

Definition task_file (t : string * string * (result string -> M unit))
    : string := t.1.1.

(** A suspended call as [optimizeFile] leaves it. *)
Definition task_ok `{Host}
    (t : string * string * (result string -> M unit)) : Prop :=
  t.2 = resume_minify (task_file t) ∧
  (baseExt (task_file t) = ".js" ∨ baseExt (task_file t) = ".mjs").

(** The paths on which the transforms are called. *)
Definition joined `{Host} (buildDirectory : string) (allFiles : list string)
    : list string :=
  map (fun file => path_join [buildDirectory; file]) allFiles.

(** How a pass ends, after the events [evs_d] of the dispatch and with the
    events [evs_r] of the resumed calls: a rejection that was already there
    when [Promise.all] looked, a rejection of a resumed call, a failure of
    the emitter, or completion. *)
Inductive ending (dest : string) (evs_d evs_r : list Event)
    : result unit → ServiceState → list Event → Prop :=
| sync_rejection err :
    ending dest evs_d evs_r (inl err) Running (PassThrow err :: evs_r)
| late_rejection err :
    PassThrow err ∈ evs_r →
    ending dest evs_d evs_r (inl err) Running evs_r
| emitter_failure err :
    failed (evs_d ++ evs_r) = [] →
    Forall transform_event evs_r →
    ending dest evs_d evs_r (inl err) Running
           (evs_r ++ [ReadSet; PassThrow err])
| completed :
    failed (evs_d ++ evs_r) = [] →
    Forall transform_event evs_r →
    ending dest evs_d evs_r (inr tt) Stopped
           (evs_r ++ [ReadSet; WriteFile dest; StopService; PassReturn]).

(** What the script [file] contributes to the set when the file system is
    [fs]: the resolved specifier of one of its static imports. *)
Definition contributes `{Host} (fs : gmap string node) (file p : string)
    : Prop :=
  (baseExt file = ".js" ∨ baseExt file = ".mjs") ∧
  ∃ code imports imp,
    fs_read fs file = inr code ∧ parse code = inr imports ∧
    imp ∈ imports ∧ imp_d imp = -1 ∧
    p = path_resolve (path_dirname file)
          (js_substring code (imp_s imp) (imp_e imp)).

(** Two file systems that differ on markup files at most. *)
Definition agree `{Host} (fs fs' : gmap string node) : Prop :=
  ∀ p, baseExt p ≠ ".html" → fs' !! p = fs !! p.

(** The file system once the service has answered the suspended calls:
    every script whose minification succeeded holds the minified code. *)
Definition minified_files `{Host}
    (tasks : list (string * string * (result string -> M unit)))
    (fs : gmap string node) : gmap string node :=
  foldr (fun t fs =>
           match transform_minify t.1.2 with
           | inr js => <[task_file t := File js]> fs
           | inl _ => fs
           end) fs tasks.

(** The minifier accepts the code of every suspended call. *)
Definition all_minified `{Host}
    (tasks : list (string * string * (result string -> M unit))) : bool :=
  forallb (fun t => is_ok (transform_minify t.1.2)) tasks.

(** A suspended call whose file still holds the code that was read. *)
Definition task_live `{Host} (fs : gmap string node)
    (t : string * string * (result string -> M unit)) : Prop :=
  task_ok t ∧ fs !! task_file t = Some (File t.1.2).

(** The import statement of one module. *)
Definition import_line `{Host} (dest url : string) : string :=
  "import '" +:+ relativeURL (path_dirname dest) url +:+ "';".




(** * Properties *)

(** ** Examples *)

Example substring_specifier :
  js_substring "import './util.js';" 8 17 = "./util.js".
Proof. reflexivity. Qed.

Example substring_swaps_and_clamps : js_substring "abcdef" 4 (-2) = "abcd".
Proof. reflexivity. Qed.

Example join_two : js_join ", " ["a"; "b"] = "a, b".
Proof. reflexivity. Qed.

Example spread_pattern : spread_string "a/*" = ["a"; "/"; "*"].
Proof. reflexivity. Qed.

Example set_add_twice : Set_add "x" (Set_add "y" (Set_add "x" [])) = ["x"; "y"].
Proof. reflexivity. Qed.

Example star_stays_in_its_directory :
  minimatch true "__snowpack__/*" "__snowpack__/env.js" = true ∧
  minimatch true "__snowpack__/*" "__snowpack__/env/dev.js" = false.
Proof. split; reflexivity. Qed.

Example wildcards_skip_dot_names :
  minimatch false "**/*" "lib/a.js" = true ∧
  minimatch false "**/*" "lib/.cache" = false ∧
  minimatch true "**/*" "lib/.cache" = true.
Proof. repeat split; reflexivity. Qed.

Example write_needs_the_directory :
  let dest := "/out/__snowpack__/module-preload.mjs" in
  parent_dir dest = "/out/__snowpack__" ∧
  write_error ∅ dest = Some (ENOENT dest) ∧
  write_error {[ "/out/__snowpack__" := Dir ]} dest = None ∧
  write_error {[ "/out/__snowpack__" := File "x" ]} dest = Some (ENOTDIR dest) ∧
  write_error {[ dest := Dir ]} dest = Some (EISDIR_open dest) ∧
  write_error {[ dest := File "import 'x';" ]} dest = None.
Proof. repeat split; reflexivity. Qed.

Example patterns_of_the_fragment :
  glob_fragment "__snowpack__/*" = true ∧
  glob_fragment "**/*.map" = true ∧
  glob_fragment "**/*.{map,txt}" = false ∧
  glob_fragment "[meta]/*" = false ∧
  glob_fragment "!vendor/**" = false ∧
  glob_fragment "a//b" = false.
Proof. repeat split; reflexivity. Qed.

Example globstar_ignores_its_directory :
  isIgnored ["vendor/**"] "vendor" = true ∧
  isIgnored ["vendor/**"] "vendor/a/b.js" = true ∧
  isIgnored ["vendor/**"] "src/vendor" = false.
Proof. repeat split; reflexivity. Qed.

(** The scenario of the specification: a page, a script with one static and
    one dynamic import, and the imported script; [minifyJS] off. *)
Example scenario :
  let st0 := Sample.initial
               [("/out/index.html", File "<html><head></head></html>");
                ("/out/main.js", File Sample.main_js);
                ("/out/util.js", File "export {}");
                ("/out/__snowpack__", Dir)] in
  let run := optimize (H := Sample.host) Sample.config (Sample.options false)
                      "/out" [] st0 in
  fst run = inr tt ∧
  trace (snd run) =
    [StartService;
     Dispatch "/out/__snowpack__"; Settle "/out/__snowpack__" true;
     Dispatch "/out/index.html"; WriteFile "/out/index.html";
     Settle "/out/index.html" true;
     Dispatch "/out/main.js"; Settle "/out/main.js" true;
     Dispatch "/out/util.js"; Settle "/out/util.js" true;
     ReadSet; WriteFile "/out/__snowpack__/module-preload.mjs";
     StopService; PassReturn] ∧
  modulesToPreload (snd run) = ["/out/util.js"] ∧
  files (snd run) !! "/out/__snowpack__/module-preload.mjs"
    = Some (File "import '../util.js';") ∧
  files (snd run) !! "/out/main.js" = Some (File Sample.main_js).
Proof. repeat split; by vm_compute. Qed.

(** ** The built-ins *)

Lemma js_sort_perm (compare : string -> string -> Z) (l : list string) :
  js_sort compare l ≡ₚ l.
Proof.
  induction l as [|x l IH]; [done|]. unfold js_sort in *. simpl.
  rewrite <- IH at 2. generalize (foldr (sort_insert compare) [] l).
  clear. intros l. induction l as [|y l IH]; simpl; [done|].
  destruct (0 <? compare x y); [|done].
  rewrite IH. apply Permutation_swap.
Qed.

Lemma sort_insert_elem (compare : string -> string -> Z) x z l :
  z ∈ sort_insert compare x l ↔ z = x ∨ z ∈ l.
Proof.
  induction l as [|y l IH]; simpl; [set_solver|].
  destruct (0 <? compare x y); set_solver.
Qed.

(** The sort is stable: [sort_insert] puts [x] behind the elements it
    collates after and in front of all the others. *)
Lemma sort_insert_split (compare : string -> string -> Z) x l :
  ∃ l1 l2, l = l1 ++ l2 ∧ sort_insert compare x l = l1 ++ x :: l2 ∧
           Forall (fun y => 0 < compare x y) l1.
Proof.
  induction l as [|y l (l1 & l2 & -> & Hins & Hall)]; simpl.
  { by exists [], []. }
  destruct (0 <? compare x y) eqn:Hcmp.
  - apply Z.ltb_lt in Hcmp. exists (y :: l1), l2.
    rewrite Hins. split; [done|]. split; [done|]. by constructor.
  - by exists [], (y :: l1 ++ l2).
Qed.

Lemma js_sort_stable (compare : string -> string -> Z) a b l :
  precedes a b l → compare a b ≤ 0 → precedes a b (js_sort compare l).
Proof.
  unfold precedes. intros Hsub Hle. induction l as [|x l IH].
  { by apply sublist_nil_r in Hsub. }
  change (js_sort compare (x :: l))
    with (sort_insert compare x (js_sort compare l)).
  destruct (sort_insert_split compare x (js_sort compare l))
    as (l1 & l2 & Hl & -> & Hall).
  apply sublist_cons_r in Hsub as [Hsub|(k & Hk & Hsub)].
  - etrans; [by apply IH|]. rewrite Hl.
    apply sublist_app; [done|]. by apply sublist_cons.
  - injection Hk as <- <-.
    apply sublist_inserts_l, sublist_skip.
    assert (b ∈ l) as Hb by (by apply singleton_sublist_l).
    rewrite <- (js_sort_perm compare l), Hl in Hb.
    apply elem_of_app in Hb as [Hb|Hb].
    { eapply Forall_forall in Hall; [|exact Hb]. lia. }
    by apply singleton_sublist_l.
Qed.

Section Sorting.
Variable compare : string -> string -> Z.
Variable universe : list string.
Hypothesis consistent : consistent_on compare universe.
Hypothesis transitive : transitive_on compare universe.

Lemma sort_insert_sorted x l :
  x ∈ universe → l ⊆ universe →
  StronglySorted (compare_le compare) l →
  StronglySorted (compare_le compare) (sort_insert compare x l).
Proof.
  intros Hx Hl Hs. induction Hs as [|y l Hs IH Hy]; simpl.
  { repeat constructor. }
  assert (y ∈ universe) as Hyu by set_solver.
  assert (l ⊆ universe) as Hlu by set_solver.
  destruct (0 <? compare x y) eqn:Hcmp.
  - apply Z.ltb_lt in Hcmp. constructor; [by apply IH|].
    apply Forall_forall. intros z [->|Hz]%sort_insert_elem.
    + by apply consistent.
    + by eapply Forall_forall in Hy.
  - apply Z.ltb_ge in Hcmp. constructor; [by constructor|].
    constructor; [done|]. apply Forall_forall. intros z Hz.
    apply (transitive x y z); auto.
    by eapply Forall_forall in Hy.
Qed.

Lemma js_sort_sorted l :
  l ⊆ universe → StronglySorted (compare_le compare) (js_sort compare l).
Proof.
  induction l as [|x l IH]; intros Hl; [constructor|].
  unfold js_sort. simpl. apply sort_insert_sorted; [set_solver| |].
  - intros z Hz. apply Hl. right. by rewrite <- (js_sort_perm compare l).
  - apply IH. set_solver.
Qed.

(** Two arrays with the same elements sort to the same array when no two
    distinct elements tie. *)
Lemma js_sort_unique l1 l2 :
  no_ties_on compare universe → l1 ⊆ universe → l1 ≡ₚ l2 →
  js_sort compare l1 = js_sort compare l2.
Proof.
  intros Hties Hl Hperm.
  assert (l2 ⊆ universe) as Hl2 by (by rewrite <- Hperm).
  apply (StronglySorted_unique_strong (compare_le compare));
    [|by apply js_sort_sorted..|by rewrite !js_sort_perm].
  intros a b Ha Hb. rewrite js_sort_perm in Ha. rewrite js_sort_perm in Hb.
  apply Hties; auto.
Qed.

End Sorting.

Lemma fs_write_file (files : gmap string node) (p c : string) :
  write_error files p = None →
  fs_write files p c = inr (<[p := File c]> files).
Proof. unfold fs_write. by intros ->. Qed.

Lemma write_error_file (files : gmap string node) (p c : string) :
  files !! p = Some (File c) → write_error files p = None.
Proof. unfold write_error. by intros ->. Qed.

Lemma writeModulePreloadFile_content `{Host} (dest : string) (st : State) :
  write_error (files st) dest = None →
  ∃ st',
    writeModulePreloadFile dest st = (inr tt, st') ∧
    files st' !! dest =
      Some (File (preload_code dest
                    (js_sort localeCompare (modulesToPreload st)))) ∧
    modulesToPreload st' = modulesToPreload st ∧
    esbuildService st' = esbuildService st ∧
    trace st' = trace st ++ [ReadSet; WriteFile dest].
Proof.
  intros Hdir. unfold writeModulePreloadFile, bind, log, writeFileSync. simpl.
  rewrite fs_write_file by done. eexists. split; [done|]. simpl.
  rewrite lookup_insert_eq, <- app_assoc. done.
Qed.

(** ** The emitter *)

(** C3, as amended: the emitter orders the module paths with
    [localeCompare], not by byte order.  For every set on which the
    comparator is an order, and whatever the paths that tie, the sorted
    paths are the paths of the set in non-decreasing collation order, and
    the file, when it can be written, holds their import lines in that
    order; a path accumulated before another one that does not collate
    after it stays before it, so paths that tie keep their accumulation
    order.  Only the last part needs that no two distinct paths tie: a
    second run that accumulated the same set in another order then writes
    the same file. *)
Theorem C3_emitter_sorts_by_collation `{Host} (dest : string) (st1 : State) :
  let set := modulesToPreload st1 in
  let sorted := js_sort localeCompare set in
  consistent_on localeCompare set →
  transitive_on localeCompare set →
  Sorted (compare_le localeCompare) sorted ∧
  sorted ≡ₚ set ∧
  (∀ a b, precedes a b set → localeCompare a b ≤ 0 → precedes a b sorted) ∧
  (write_error (files st1) dest = None →
   fst (writeModulePreloadFile dest st1) = inr tt ∧
   files (snd (writeModulePreloadFile dest st1)) !! dest =
     Some (File (preload_code dest sorted))) ∧
  (no_ties_on localeCompare set →
   ∀ st2 : State,
     modulesToPreload st2 ≡ₚ set →
     write_error (files st2) dest = None →
     files (snd (writeModulePreloadFile dest st2)) !! dest =
       Some (File (preload_code dest sorted))).
Proof.
  intros set sorted Hcons Htrans.
  split; [|split; [|split; [|split]]].
  - apply StronglySorted_Sorted. by apply (js_sort_sorted _ set).
  - apply js_sort_perm.
  - intros a b. apply js_sort_stable.
  - intros Hd1.
    destruct (writeModulePreloadFile_content dest st1 Hd1) as (st' & -> & Hf & _).
    done.
  - intros Hties st2 Hperm Hd2.
    destruct (writeModulePreloadFile_content dest st2 Hd2) as (st' & -> & Hf & _).
    simpl. rewrite Hf. do 3 f_equal. symmetry.
    by apply (js_sort_unique _ set).
Qed.

Lemma C3_emitter_sorts_by_collation_witness :
  let dest := "/out/__snowpack__/module-preload.mjs" in
  let disk : gmap string node := {[ "/out/__snowpack__" := Dir ]} in
  let st1 := mkState disk ["/out/b.js"; "/out/a.js"] Running [] in
  let st2 := mkState disk ["/out/a.js"; "/out/b.js"] Running [] in
  let content := "import '../a.js';" +:+ newline +:+ "import '../b.js';" in
  files (snd (writeModulePreloadFile (H := Sample.host) dest st1)) !! dest
    = Some (File content) ∧
  files (snd (writeModulePreloadFile (H := Sample.host) dest st2)) !! dest
    = Some (File content).
Proof.
  intros dest disk st1 st2 content.
  assert (consistent_on (localeCompare (Host := Sample.host))
            (modulesToPreload st1)) as Hcons.
  { intros a b Ha Hb; set_unfold in Ha; set_unfold in Hb;
      destruct Ha as [->|[->|[]]], Hb as [->|[->|[]]]; vm_compute; congruence. }
  assert (transitive_on (localeCompare (Host := Sample.host))
            (modulesToPreload st1)) as Htrans.
  { intros a b c Ha Hb Hc;
      set_unfold in Ha; set_unfold in Hb; set_unfold in Hc;
      destruct Ha as [->|[->|[]]], Hb as [->|[->|[]]], Hc as [->|[->|[]]];
      vm_compute; congruence. }
  assert (no_ties_on (localeCompare (Host := Sample.host))
            (modulesToPreload st1)) as Hties.
  { intros a b Ha Hb; set_unfold in Ha; set_unfold in Hb;
      destruct Ha as [->|[->|[]]], Hb as [->|[->|[]]]; vm_compute; congruence. }
  destruct (C3_emitter_sorts_by_collation (H := Sample.host) dest st1
              Hcons Htrans) as (_ & _ & _ & Hfile & Hsame).
  split; [exact (proj2 (Hfile eq_refl))|].
  apply (Hsame Hties st2); [apply Permutation_swap|reflexivity].
Defined.

(** The claim of C3 as the specification words it fails in two places.  On
    the set of [/out/B.js] and [/out/a.js] the emitter puts [a] first, while
    in byte order the upper-case [B] precedes [a].  And when the collation
    ranks two distinct paths as equal, as it must for canonically equivalent
    names, the stable sort keeps them in the order of accumulation, so that
    two runs with the same set write different files. *)
Lemma C3_counterexample :
  let set := ["/out/B.js"; "/out/a.js"] in
  let nfc := "/out/caf" +:+ Sample.e_acute +:+ ".js" in
  let nfd := "/out/caf" +:+ Sample.e_combining +:+ ".js" in
  (js_sort (localeCompare (Host := Sample.host)) set
     = ["/out/a.js"; "/out/B.js"] ∧
   byte_le "/out/B.js" "/out/a.js" ∧
   ¬ Sorted byte_le (js_sort (localeCompare (Host := Sample.host)) set)) ∧
  (nfc ≠ nfd ∧
   localeCompare (Host := Sample.canonical_host) nfc nfd = 0 ∧
   js_sort (localeCompare (Host := Sample.canonical_host)) [nfc; nfd]
     = [nfc; nfd] ∧
   js_sort (localeCompare (Host := Sample.canonical_host)) [nfd; nfc]
     = [nfd; nfc]).
Proof.
  split.
  - split; [reflexivity|]. split; [reflexivity|].
    intros Hs. change (Sorted byte_le ["/out/a.js"; "/out/B.js"]) in Hs.
    inversion Hs as [|? ? _ Hhd]; subst. inversion Hhd as [|? ? Hle]; subst.
    vm_compute in Hle. discriminate.
  - split; [by vm_compute|]. repeat split; by vm_compute.
Qed.

(** C4: for the empty set the emitter writes the file, and its content is
    the one import statement [import '';] with an empty specifier. *)
Theorem C4_empty_set_writes_an_import `{Host} (dest : string) (st : State) :
  modulesToPreload st = [] →
  write_error (files st) dest = None →
  fst (writeModulePreloadFile dest st) = inr tt ∧
  files (snd (writeModulePreloadFile dest st)) !! dest =
    Some (File "import '';").
Proof.
  intros Hempty Hdir.
  destruct (writeModulePreloadFile_content dest st Hdir) as (st' & -> & Hf & _).
  rewrite Hempty in Hf. done.
Qed.

Lemma C4_empty_set_writes_an_import_witness :
  files (snd (writeModulePreloadFile (H := Sample.host)
                "/out/__snowpack__/module-preload.mjs"
                (mkState {[ "/out/__snowpack__" := Dir ]} [] Running [])))
    !! "/out/__snowpack__/module-preload.mjs" = Some (File "import '';").
Proof.
  refine (proj2 (C4_empty_set_writes_an_import (H := Sample.host)
                   "/out/__snowpack__/module-preload.mjs"
                   (mkState {[ "/out/__snowpack__" := Dir ]} [] Running [])
                   _ _)).
  - reflexivity.
  - reflexivity.
Defined.

(** ** [optimizeFile] on one file *)

Lemma with_modules_id st : with_modules (modulesToPreload st) st = st.
Proof. by destruct st. Qed.

Lemma elem_of_Set_add p x set : p ∈ Set_add x set ↔ p ∈ set ∨ p = x.
Proof. unfold Set_add. case_decide; set_solver. Qed.

Lemma elem_of_add_all p paths set :
  p ∈ add_all paths set ↔ p ∈ set ∨ p ∈ paths.
Proof.
  revert set. induction paths as [|x paths IH]; intros set; simpl.
  { set_solver. }
  rewrite IH, elem_of_Set_add. set_solver.
Qed.

Lemma forEach_add_module (paths : list string) (st : State) :
  forEach add_module paths st =
  (inr tt, with_modules (add_all paths (modulesToPreload st)) st).
Proof.
  revert st. induction paths as [|p paths IH]; intros st; simpl.
  { by rewrite with_modules_id. }
  unfold bind. simpl. rewrite IH. done.
Qed.

Lemma forEach_map {A B} (f : B -> M unit) (g : A -> B) (l : list A) st :
  forEach (fun x => f (g x)) l st = forEach f (map g l) st.
Proof.
  revert st. induction l as [|x l IH]; intros st; simpl; [done|].
  unfold bind. destruct (f (g x) st) as [[err|[]] st']; [done|]. apply IH.
Qed.

Lemma elem_of_static_paths `{Host} p file code imports :
  p ∈ static_paths file code imports ↔
  ∃ imp, imp ∈ imports ∧ imp_d imp = -1 ∧ p = specifier_path file code imp.
Proof.
  unfold static_paths. rewrite list_elem_of_fmap. split.
  - intros (imp & -> & [Hs Himp]%list_elem_of_filter). exists imp.
    split; [done|]. split; [|done]. by apply Z.eqb_eq.
  - intros (imp & Himp & Hd & ->). exists imp. split; [done|].
    apply list_elem_of_filter. split; [|done]. by apply Z.eqb_eq.
Qed.

Section OneFile.
Context `{Host}.
Variable options : option OptimizePluginOptions.

Lemma scan_imports_ok file st code imports :
  fs_read (files st) file = inr code →
  parse code = inr imports →
  scan_imports options file st =
  (match options_minifyJS options with
   | inl err => inl err
   | inr minify => inr (code, truthy minify)
   end,
   with_modules (add_all (static_paths file code imports)
                         (modulesToPreload st)) st).
Proof.
  intros Hread Hparse. unfold scan_imports, bind, readFileSync, lift, ret.
  rewrite Hread, Hparse.
  change (forEach _ _ st) with
    (forEach (fun imp => add_module (specifier_path file code imp))
             (filter (fun imp => is_static imp = true) imports) st).
  rewrite (forEach_map add_module (specifier_path file code)).
  fold (static_paths file code imports).
  rewrite forEach_add_module. by destruct (options_minifyJS options).
Qed.

Lemma scan_imports_read_fails file st err :
  fs_read (files st) file = inl err →
  scan_imports options file st = (inl err, st).
Proof.
  intros Hread. unfold scan_imports, bind, readFileSync. by rewrite Hread.
Qed.

Lemma scan_imports_parse_fails file st code err :
  fs_read (files st) file = inr code →
  parse code = inl err →
  scan_imports options file st = (inl err, st).
Proof.
  intros Hread Hparse. unfold scan_imports, bind, readFileSync, lift.
  by rewrite Hread, Hparse.
Qed.

Lemma script_not_css ext : ext = ".js" ∨ ext = ".mjs" → ext ≠ ".css".
Proof. by intros [-> | ->]. Qed.

Lemma html_not_script ext : ext = ".html" → ¬ (ext = ".js" ∨ ext = ".mjs").
Proof. by intros -> [|]. Qed.

Lemma optimizeFile_script file dest st :
  baseExt file = ".js" ∨ baseExt file = ".mjs" →
  optimizeFile options file dest st =
  match scan_imports options file st with
  | (inl err, st') => (Settled (inl (trouble file err)), st')
  | (inr (code, true), st') => (Awaiting code (resume_minify file), st')
  | (inr (code, false), st') => (Settled (inr tt), st')
  end.
Proof.
  intros Hext. unfold optimizeFile.
  destruct (decide (baseExt file = ".css")) as [Hcss|_].
  { by apply script_not_css in Hext. }
  by destruct (decide (baseExt file = ".js" ∨ baseExt file = ".mjs")).
Qed.

Lemma optimizeFile_html file dest st :
  baseExt file = ".html" →
  optimizeFile options file dest st =
  match fs_read (files st) file with
  | inl err => (Settled (inl err), st)
  | inr code =>
      match appendHTMLToHead code (preloadScript file dest) with
      | inl err => (Settled (inl err), st)
      | inr code' =>
          match fs_write (files st) file code' with
          | inl err => (Settled (inl err), st)
          | inr files' =>
              (Settled (inr tt),
               mkState files' (modulesToPreload st) (esbuildService st)
                       (trace st ++ [WriteFile file]))
          end
      end
  end.
Proof.
  intros Hext. unfold optimizeFile.
  destruct (decide (baseExt file = ".css")) as [Hcss|_]; [congruence|].
  destruct (decide (baseExt file = ".js" ∨ baseExt file = ".mjs")) as [Hs|_].
  { by apply html_not_script in Hs. }
  destruct (decide (baseExt file = ".html")); [|done].
  unfold bind, readFileSync, lift, writeFileSync.
  destruct (fs_read (files st) file) as [err|code]; [done|].
  destruct (appendHTMLToHead code _) as [err|code']; [done|].
  by destruct (fs_write (files st) file code').
Qed.

Lemma optimizeFile_other file dest st :
  baseExt file ≠ ".js" → baseExt file ≠ ".mjs" → baseExt file ≠ ".html" →
  optimizeFile options file dest st = (Settled (inr tt), st).
Proof.
  intros Hjs Hmjs Hhtml. unfold optimizeFile.
  destruct (decide (baseExt file = ".css")); [done|].
  destruct (decide (baseExt file = ".js" ∨ baseExt file = ".mjs")) as [[|]|_];
    [done..|].
  by destruct (decide (baseExt file = ".html")).
Qed.

End OneFile.

(** ** Traces and footprints *)

Lemma dispatched_app a b : dispatched (a ++ b) = dispatched a ++ dispatched b.
Proof. apply omap_app. Qed.
Lemma settled_app a b : settled (a ++ b) = settled a ++ settled b.
Proof. apply omap_app. Qed.
Lemma failed_app a b : failed (a ++ b) = failed a ++ failed b.
Proof. apply omap_app. Qed.
Lemma written_app a b : written (a ++ b) = written a ++ written b.
Proof. apply omap_app. Qed.

Lemma late_not_dispatched evs : Forall late_event evs → dispatched evs = [].
Proof.
  induction 1 as [|ev evs Hev _ IH]; [done|]. by destruct ev.
Qed.

Lemma elem_of_failed f evs : f ∈ failed evs ↔ Settle f false ∈ evs.
Proof.
  unfold failed. rewrite list_elem_of_omap. split.
  - intros (ev & Hev & Hf). by destruct ev as [| | |? []| | | |]; simplify_eq.
  - intros Hev. by exists (Settle f false).
Qed.

Lemma elem_of_written f evs : f ∈ written evs ↔ WriteFile f ∈ evs.
Proof.
  unfold written. rewrite list_elem_of_omap. split.
  - intros (ev & Hev & Hf). by destruct ev; simplify_eq.
  - intros Hev. by exists (WriteFile f).
Qed.

Lemma elem_of_dispatched f evs : f ∈ dispatched evs ↔ Dispatch f ∈ evs.
Proof.
  unfold dispatched. rewrite list_elem_of_omap. split.
  - intros (ev & Hev & Hf). by destruct ev; simplify_eq.
  - intros Hev. by exists (Dispatch f).
Qed.

Lemma effect_refl st : effect st st [].
Proof. split; [by rewrite app_nil_r|done..]. Qed.

Lemma effect_trans st1 st2 st3 evs1 evs2 :
  effect st1 st2 evs1 → effect st2 st3 evs2 → effect st1 st3 (evs1 ++ evs2).
Proof.
  intros [Ht1 Hs1 Hf1] [Ht2 Hs2 Hf2]. split.
  - by rewrite Ht2, Ht1, app_assoc.
  - congruence.
  - intros p Hp. rewrite written_app in Hp.
    rewrite Hf2, Hf1; set_solver.
Qed.

Lemma effect_record ev st :
  (∀ f, ev ≠ WriteFile f) → effect st (record ev st) [ev].
Proof. by split. Qed.

Lemma effect_with_modules set st : effect st (with_modules set st) [].
Proof. split; simpl; [by rewrite app_nil_r|done..]. Qed.

Lemma fs_write_inv (fs fs' : gmap string node) p c :
  fs_write fs p c = inr fs' → fs' = <[p := File c]> fs.
Proof. unfold fs_write. destruct (write_error fs p); congruence. Qed.

Lemma writeFileSync_effect file code st r st' :
  writeFileSync file code st = (r, st') →
  (is_ok r = false ∧ st' = st) ∨
  (r = inr tt ∧ effect st st' [WriteFile file] ∧
   files st' = <[file := File code]> (files st) ∧
   modulesToPreload st' = modulesToPreload st).
Proof.
  unfold writeFileSync.
  destruct (fs_write (files st) file code) as [err|fs'] eqn:Hw;
    intros [= <- <-]; [by left|right].
  apply fs_write_inv in Hw as ->. split; [done|]. split; [|done].
  split; simpl; [done..|].
  intros p Hp. apply lookup_insert_ne. set_solver.
Qed.

Section Footprint.
Context `{Host}.
Variable options : option OptimizePluginOptions.

Lemma scan_imports_frame file st r st' :
  scan_imports options file st = (r, st') →
  effect st st' [] ∧
  (∀ code, r = inr (code, true) → minify_on options).
Proof.
  destruct (fs_read (files st) file) as [err|code] eqn:Hread.
  { rewrite (scan_imports_read_fails _ _ _ err) by done. intros [= <- <-].
    split; [apply effect_refl|done]. }
  destruct (parse code) as [err|imports] eqn:Hparse.
  { rewrite (scan_imports_parse_fails _ _ _ code err) by done. intros [= <- <-].
    split; [apply effect_refl|done]. }
  rewrite (scan_imports_ok _ _ _ code imports) by done. intros [= <- <-].
  split; [apply effect_with_modules|].
  intros code'. unfold options_minifyJS, minify_on.
  destruct options as [o|]; [|done]. intros [= _ Ht]. eauto.
Qed.

(** A call of [optimizeFile] writes at most its own file, and only a markup
    file before its promise settles; a suspended call is a script under
    [minifyJS]. *)
Lemma optimizeFile_effect file dest st a st' :
  optimizeFile options file dest st = (a, st') →
  ∃ evs,
    effect st st' evs ∧
    (evs = [] ∨ evs = [WriteFile file] ∧ baseExt file = ".html") ∧
    match a with
    | Settled _ => True
    | Awaiting _ resume =>
        resume = resume_minify file ∧ evs = [] ∧ minify_on options ∧
        (baseExt file = ".js" ∨ baseExt file = ".mjs")
    end.
Proof.
  destruct (decide (baseExt file = ".js" ∨ baseExt file = ".mjs")) as [Hs|Hs].
  - rewrite optimizeFile_script by done.
    destruct (scan_imports options file st) as [[err|[code []]] st1] eqn:Hscan;
      intros [= <- <-]; apply scan_imports_frame in Hscan as [Heff Hmin];
      exists []; eauto 10.
  - destruct (decide (baseExt file = ".html")) as [Hh|Hh].
    + rewrite optimizeFile_html by done.
      destruct (fs_read (files st) file) as [err|code].
      { intros [= <- <-]. exists []. eauto using effect_refl. }
      destruct (appendHTMLToHead code _) as [err|code'].
      { intros [= <- <-]. exists []. eauto using effect_refl. }
      destruct (fs_write (files st) file code') as [err|fs'] eqn:Hw.
      { intros [= <- <-]. exists []. eauto using effect_refl. }
      intros [= <- <-]. exists [WriteFile file]. split; [|by auto].
      apply fs_write_inv in Hw as ->. split; simpl; [done..|].
      intros p Hp. apply lookup_insert_ne. set_solver.
    + rewrite optimizeFile_other by tauto.
      intros [= <- <-]. exists []. eauto using effect_refl.
Qed.

Lemma resume_minify_effect file minified st r st' :
  resume_minify file minified st = (r, st') →
  ∃ evs,
    effect st st' evs ∧
    (is_ok r = false ∧ evs = [] ∨ r = inr tt ∧ evs = [WriteFile file]) ∧
    modulesToPreload st' = modulesToPreload st.
Proof.
  unfold resume_minify, try_catch, finish_minify, bind, lift, throw.
  destruct minified as [err|code].
  { intros [= <- <-]. exists []. eauto using effect_refl. }
  destruct (writeFileSync file code st) as [r1 st1] eqn:Hw.
  apply writeFileSync_effect in Hw as [[Hr ->]|(-> & Heff & _ & Hm)].
  - destruct r1 as [err|[]]; [|done]. intros [= <- <-].
    exists []. eauto using effect_refl.
  - intros [= <- <-]. exists [WriteFile file]. eauto.
Qed.

End Footprint.

(** ** The transforms of a pass *)

Ltac solve_Forall :=
  repeat first [ apply Forall_nil_2
               | apply Forall_cons; split
               | apply Forall_app; split ];
  try done.

Lemma insert_at_perm {A} (n : nat) (x : A) (l : list A) :
  insert_at n x l ≡ₚ x :: l.
Proof.
  revert n. induction l as [|y l IH]; intros [|n]; simpl; [done..|].
  rewrite IH. apply Permutation_swap.
Qed.

Lemma arrange_perm {A} (schedule : list nat) (l : list A) :
  arrange schedule l ≡ₚ l.
Proof.
  revert schedule. induction l as [|x l IH]; intros schedule; simpl; [done|].
  by rewrite insert_at_perm, IH.
Qed.

Lemma insert_at_length {A} (x : A) (a b : list A) :
  insert_at (length a) x (a ++ b) = a ++ x :: b.
Proof. induction a as [|y a IH]; simpl; [by destruct b|]. by rewrite IH. Qed.

(** Every order of the answers is the order of some schedule. *)
Lemma arrange_complete {A} (l l' : list A) :
  l ≡ₚ l' → ∃ schedule, arrange schedule l = l'.
Proof.
  revert l'. induction l as [|x l IH]; intros l' Hperm.
  { apply Permutation_nil in Hperm as ->. by exists []. }
  assert (x ∈ l') as (a & b & ->)%list_elem_of_split.
  { rewrite <- Hperm. by left. }
  apply Permutation_cons_app_inv in Hperm.
  destruct (IH _ Hperm) as [schedule Hs].
  exists (length a :: schedule). simpl. rewrite Hs. apply insert_at_length.
Qed.

Section Pass.
Context `{Host}.
Variable config : SnowpackConfig.
Variable options : option OptimizePluginOptions.

Lemma dispatch_all_spec bd dest allFiles st promises st' :
  dispatch_all options bd dest allFiles st = (promises, st') →
  ∃ evs,
    effect st st' evs ∧
    Forall transform_event evs ∧
    dispatched evs = joined bd allFiles ∧
    settled evs ++ map task_file (awaiting promises) ≡ₚ dispatched evs ∧
    (first_rejection promises = None → failed evs = []) ∧
    (∀ p, p ∈ written evs → p ∈ dispatched evs ∧ baseExt p = ".html") ∧
    Forall task_ok (awaiting promises) ∧
    (awaiting promises ≠ [] → minify_on options).
Proof.
  revert st promises st'.
  induction allFiles as [|file rest IH]; intros st promises st'; simpl.
  { intros [= <- <-]. exists []. split; [apply effect_refl|].
    repeat split; try done. set_solver. }
  set (file' := path_join [bd; file]).
  destruct (optimizeFile options file' dest (record (Dispatch file') st))
    as [a st1] eqn:Hopt.
  apply optimizeFile_effect in Hopt as (evs_o & Heff_o & Hevs_o & Ha).
  set (st2 := match a with
              | Settled r => record (Settle file' (is_ok r)) st1
              | Awaiting _ _ => st1
              end).
  destruct (dispatch_all options bd dest rest st2) as [ps st3] eqn:Hrest.
  apply IH in Hrest
    as (evs & Heff & Htr & Hdisp & Hsett & Hfail & Hwr & Htasks & Hmin).
  intros [= <- <-].
  assert (effect st (record (Dispatch file') st) [Dispatch file']) as Heff_d
    by (by apply effect_record).
  assert (written evs_o = [] ∨
          written evs_o = [file'] ∧ baseExt file' = ".html") as Hwr_o.
  { destruct Hevs_o as [->|[-> ?]]; [by left|by right]. }
  assert (Forall transform_event evs_o ∧ dispatched evs_o = [] ∧
          settled evs_o = [] ∧ failed evs_o = []) as (Htr_o & Hd_o & Hs_o & Hf_o).
  { destruct Hevs_o as [->|[-> ?]]; repeat split; by repeat constructor. }
  rewrite Hdisp in Hsett. setoid_rewrite Hdisp in Hwr.
  destruct a as [r|code resume].
  - exists (([Dispatch file'] ++ evs_o) ++ [Settle file' (is_ok r)] ++ evs).
    split.
    { eapply effect_trans; [eapply effect_trans; eassumption|].
      eapply effect_trans; [|eassumption]. by apply effect_record. }
    rewrite !dispatched_app, !settled_app, !failed_app, !written_app.
    rewrite Hd_o, Hs_o, Hf_o, Hdisp. simpl.
    split. { solve_Forall. }
    split; [done|].
    split. { by rewrite Hsett. }
    split. { destruct r as [err|[]]; [done|]. intros Hrej. by rewrite Hfail. }
    split; [|done].
    destruct Hwr_o as [Hw|[Hw ?]]; rewrite Hw; intros p Hp; set_solver.
  - destruct Ha as (-> & -> & Hmin_o & Hext).
    exists (([Dispatch file'] ++ []) ++ evs).
    split. { eapply effect_trans; [eapply effect_trans|]; eassumption. }
    rewrite !dispatched_app, !settled_app, !failed_app, !written_app.
    rewrite Hdisp. simpl.
    split. { solve_Forall. }
    split; [done|].
    split. { by rewrite <- Hsett, <- Permutation_middle. }
    split; [done|].
    split. { intros p Hp. set_solver. }
    split; [|done]. by constructor.
Qed.

Lemma resume_all_spec thrown tasks st thrown' st' :
  Forall task_ok tasks →
  resume_all thrown tasks st = (thrown', st') →
  ∃ evs,
    effect st st' evs ∧
    Forall late_event evs ∧
    settled evs = map task_file tasks ∧
    (∀ p, p ∈ written evs → p ∈ map task_file tasks) ∧
    (thrown' = None →
     thrown = None ∧ failed evs = [] ∧ Forall transform_event evs) ∧
    (∀ err, thrown = Some err → thrown' = Some err) ∧
    (thrown = None → ∀ err, thrown' = Some err → PassThrow err ∈ evs) ∧
    (tasks = [] → evs = []).
Proof.
  intros Htasks. revert thrown st thrown' st'.
  induction Htasks as [|[[file code] resume] tasks [Hres Hext] _ IH];
    intros thrown st thrown' st'; simpl.
  { intros [= <- <-]. exists []. split; [apply effect_refl|].
    repeat split; try done. set_solver. }
  unfold task_file in Hres, Hext. simpl in Hres, Hext. subst resume.
  unfold task_file at 1. simpl.
  destruct (resume_minify file (transform_minify code) st) as [r st1] eqn:Hres.
  apply resume_minify_effect in Hres as (evs_w & Heff_w & Hevs_w & _).
  set (st2 := record (Settle file (is_ok r)) st1).
  assert (effect st st2 (evs_w ++ [Settle file (is_ok r)])) as Heff2.
  { eapply effect_trans; [eassumption|]. by apply effect_record. }
  assert (Forall transform_event evs_w ∧ settled evs_w = [] ∧
          failed evs_w = [] ∧ Forall late_event evs_w ∧
          ∀ p, p ∈ written evs_w → p = file) as (Htr_w & Hs_w & Hf_w & Hl_w & Hw_w).
  { destruct Hevs_w as [[_ ->]|[_ ->]]; repeat split;
      try by repeat constructor. all: set_solver. }
  assert (∀ thrown0,
    (thrown0 = thrown ∧ (is_ok r = true ∨ is_Some thrown)) →
    resume_all thrown0 tasks st2 = (thrown', st') →
    ∃ evs, effect st st' evs ∧ Forall late_event evs ∧
      settled evs = file :: map task_file tasks ∧
      (∀ p, p ∈ written evs → p ∈ file :: map task_file tasks) ∧
      (thrown' = None →
       thrown = None ∧ failed evs = [] ∧ Forall transform_event evs) ∧
      (∀ err, thrown = Some err → thrown' = Some err) ∧
      (thrown = None → ∀ err, thrown' = Some err → PassThrow err ∈ evs) ∧
      ((file, code, resume_minify file) :: tasks = [] → evs = []))
    as Hsame.
  { intros thrown0 [-> Hok] Hrest.
    apply IH in Hrest
      as (evs & Heff & Hl & Hs & Hw & Hnone & Hsome & Hthrow & _).
    exists ((evs_w ++ [Settle file (is_ok r)]) ++ evs).
    split; [by eapply effect_trans|].
    rewrite !settled_app, !failed_app, !written_app, Hs_w, Hf_w, Hs. simpl.
    split. { solve_Forall. }
    split; [done|].
    split. { intros p [[Hp|Hp]%elem_of_app|Hp]%elem_of_app; set_solver. }
    split.
    { intros Hn. destruct (Hnone Hn) as (-> & Hf & Htr).
      split; [done|]. destruct Hok as [Hok|[? [=]]].
      rewrite Hok. split; [done|]. solve_Forall. }
    split; [done|]. split; [|done].
    intros Hn err Herr. apply elem_of_app. right. by apply Hthrow. }
  destruct thrown as [err0|]; [by apply Hsame; eauto|].
  destruct r as [err|[]]; [|by apply Hsame; eauto].
  intros Hrest.
  apply IH in Hrest
    as (evs & Heff & Hl & Hs & Hw & Hnone & Hsome & Hthrow & _).
  exists ((evs_w ++ [Settle file false]) ++ [PassThrow err] ++ evs).
  split.
  { eapply effect_trans; [eassumption|].
    eapply effect_trans; [|eassumption]. by apply effect_record. }
  rewrite !settled_app, !failed_app, !written_app, Hs_w, Hf_w, Hs. simpl.
  split. { solve_Forall. }
  split; [done|].
  split. { intros p [[Hp|Hp]%elem_of_app|Hp]%elem_of_app; set_solver. }
  split. { intros Hn. by destruct (Hnone Hn) as ([=] & _). }
  split; [done|]. split; [|done].
  intros _ err' Herr'. rewrite (Hsome err eq_refl) in Herr'.
  injection Herr' as <-. set_solver.
Qed.

Lemma writeModulePreloadFile_effect dest st r st' :
  writeModulePreloadFile dest st = (r, st') →
  (is_ok r = false ∧ st' = record ReadSet st) ∨
  (r = inr tt ∧ effect st st' [ReadSet; WriteFile dest]).
Proof.
  unfold writeModulePreloadFile, bind, log.
  intros [[Hr ->]|(-> & Heff & _)]%writeFileSync_effect; [by left|right].
  split; [done|].
  apply (effect_trans st (record ReadSet st) st' [ReadSet] [WriteFile dest]);
    [|done].
  by apply effect_record.
Qed.

Lemma optimize_shape bd schedule st0 :
  let run := optimize config options bd schedule st0 in
  ∃ evs_d evs_r tail,
    trace (snd run) = trace st0 ++ StartService :: evs_d ++ tail ∧
    ending (preloadModuleFile config bd) evs_d evs_r
           (fst run) (esbuildService (snd run)) tail ∧
    Forall transform_event evs_d ∧
    Forall late_event evs_r ∧
    dispatched evs_d = joined bd (scan config options bd (files st0)) ∧
    settled (evs_d ++ evs_r) ≡ₚ dispatched evs_d ∧
    (∀ p, p ∈ written evs_d → p ∈ dispatched evs_d ∧ baseExt p = ".html") ∧
    (∀ p, p ∈ written evs_r →
          p ∈ dispatched evs_d ∧ (baseExt p = ".js" ∨ baseExt p = ".mjs")) ∧
    (evs_r ≠ [] → minify_on options) ∧
    (∀ p, p ∉ written evs_d → p ∉ written evs_r → p ≠ preloadModuleFile config bd →
          files (snd run) !! p = files st0 !! p).
Proof.
  intros run. subst run. unfold optimize.
  cbv zeta.
  set (st2 := new_Set (record StartService (set_service Running st0))).
  change (files (record StartService (set_service Running st0)))
    with (files st0).
  set (allFiles := scan config options bd (files st0)).
  destruct (dispatch_all options bd (preloadModuleFile config bd) allFiles st2)
    as [promises st3] eqn:Hd.
  apply dispatch_all_spec in Hd
    as (evs_d & Heff_d & Htr_d & Hdisp & Hsett & Hfail & Hwr_d & Htasks & Hmin).
  set (answers := arrange schedule (awaiting promises)).
  assert (Forall task_ok answers) as Hans.
  { unfold answers. by rewrite arrange_perm. }
  assert (map task_file answers ≡ₚ map task_file (awaiting promises)) as Hperm.
  { unfold answers. by rewrite arrange_perm. }
  assert (∀ thrown st st' thrown',
    resume_all thrown answers st = (thrown', st') →
    ∃ evs_r, effect st st' evs_r ∧ Forall late_event evs_r ∧
      settled (evs_d ++ evs_r) ≡ₚ dispatched evs_d ∧
      (∀ p, p ∈ written evs_r →
            p ∈ dispatched evs_d ∧ (baseExt p = ".js" ∨ baseExt p = ".mjs")) ∧
      (evs_r ≠ [] → minify_on options) ∧
      (thrown' = None →
       thrown = None ∧ failed evs_r = [] ∧ Forall transform_event evs_r) ∧
      (∀ err, thrown = Some err → thrown' = Some err) ∧
      (thrown = None → ∀ err, thrown' = Some err → PassThrow err ∈ evs_r))
    as Hresume.
  { intros thrown st st' thrown' Hr.
    apply resume_all_spec in Hr
      as (evs_r & Heff & Hl & Hs & Hw & Hnone & Hsome & Hthrow & Hnil);
      [|done].
    exists evs_r. split; [done|]. split; [done|].
    split. { by rewrite settled_app, Hs, Hperm. }
    split.
    { intros p Hp. apply Hw in Hp. split.
      - rewrite <- Hsett, <- Hperm. set_solver.
      - apply list_elem_of_fmap in Hp as (t & -> & Ht).
        eapply Forall_forall in Hans as [_ Hext]; eauto. }
    split; [|done].
    intros Hne. apply Hmin. intros Hnone'. apply Hne, Hnil.
    unfold answers. by rewrite Hnone'. }
  assert (trace st2 = trace st0 ++ [StartService]) as Ht2 by done.
  assert (esbuildService st2 = Running) as Hs2 by done.
  assert (files st2 = files st0) as Hf2 by done.
  destruct Heff_d as [Ht_d Hs_d Hf_d].
  destruct (first_rejection promises) as [err|] eqn:Hrej.
  - destruct (resume_all (Some err) answers (record (PassThrow err) st3))
      as [thrown' st4] eqn:Hr.
    apply Hresume in Hr as (evs_r & [Ht Hs Hf] & Hl & Hsr & Hwr & Hm & _).
    exists evs_d, evs_r, (PassThrow err :: evs_r). simpl.
    split. { rewrite Ht. simpl. rewrite Ht_d, Ht2, <- !app_assoc. done. }
    split. { rewrite Hs. simpl. rewrite Hs_d, Hs2. constructor. }
    do 7 (split; [done|]).
    intros p Hp1 Hp2 _. rewrite Hf by done. simpl. by rewrite Hf_d, Hf2.
  - destruct (resume_all None answers st3) as [[err|] st4] eqn:Hr;
      apply Hresume in Hr
        as (evs_r & [Ht Hs Hf] & Hl & Hsr & Hwr & Hm & Hnone & _ & Hthrow).
    + exists evs_d, evs_r, evs_r. simpl.
      split. { rewrite Ht, Ht_d, Ht2, <- !app_assoc. done. }
      split. { rewrite Hs, Hs_d, Hs2. constructor. by apply Hthrow. }
      do 7 (split; [done|]).
      intros p Hp1 Hp2 _. by rewrite Hf, Hf_d, Hf2.
    + destruct (Hnone eq_refl) as (_ & Hfr & Htr_r).
      assert (failed (evs_d ++ evs_r) = []) as Hnofail.
      { by rewrite failed_app, Hfail, Hfr. }
      destruct (writeModulePreloadFile (preloadModuleFile config bd) st4)
        as [r st5] eqn:Hw.
      apply writeModulePreloadFile_effect in Hw
        as [[Hr ->]|(-> & [Ht5 Hs5 Hf5])].
      * destruct r as [err|[]]; [|done].
        exists evs_d, evs_r, (evs_r ++ [ReadSet; PassThrow err]). simpl.
        split. { rewrite Ht, Ht_d, Ht2, <- !app_assoc. done. }
        split. { rewrite Hs, Hs_d, Hs2. by constructor. }
        do 7 (split; [done|]).
        intros p Hp1 Hp2 _. by rewrite Hf, Hf_d, Hf2.
      * exists evs_d, evs_r,
          (evs_r ++ [ReadSet; WriteFile (preloadModuleFile config bd);
                     StopService; PassReturn]). simpl.
        split. { rewrite Ht5, Ht, Ht_d, Ht2, <- !app_assoc. done. }
        split. { by constructor. }
        do 7 (split; [done|]).
        intros p Hp1 Hp2 Hp3. rewrite Hf5 by set_solver.
        by rewrite Hf, Hf_d, Hf2.
Qed.

End Pass.

(** ** Where the pass throws *)

Section Throw.
Context `{Host}.
Variable config : SnowpackConfig.
Variable options : option OptimizePluginOptions.

(** Once the pass has thrown, the calls still suspended resume and settle,
    in the order of the answers, and nothing else happens. *)
Lemma resume_all_late err0 tasks st thrown' st' :
  Forall task_ok tasks →
  resume_all (Some err0) tasks st = (thrown', st') →
  ∃ evs, trace st' = trace st ++ evs ∧ Forall answer_event evs ∧
         settled evs = map task_file tasks.
Proof.
  intros Htasks. revert st.
  induction Htasks as [|[[file code] resume] tasks [Hres _] _ IH];
    intros st; simpl.
  { intros [= <- <-]. exists []. by rewrite app_nil_r. }
  unfold task_file in Hres. simpl in Hres. subst resume.
  unfold task_file at 1. simpl.
  destruct (resume_minify file (transform_minify code) st) as [r st1] eqn:Hr.
  apply resume_minify_effect in Hr as (evs_w & [Ht _ _] & Hevs_w & _).
  intros (evs & Ht' & Hev & Hs)%IH.
  exists (evs_w ++ Settle file (is_ok r) :: evs).
  split. { rewrite Ht'. simpl. rewrite Ht, <- !app_assoc. done. }
  rewrite settled_app. simpl. rewrite Hs.
  destruct Hevs_w as [[_ ->]|[_ ->]]; split; try done;
    repeat constructor; done.
Qed.

(** The first answer that rejects a call makes the pass throw there and
    then. *)
Lemma resume_all_first tasks st err st' :
  Forall task_ok tasks →
  resume_all None tasks st = (Some err, st') →
  ∃ ok f late,
    trace st' = trace st ++ ok ++ Settle f false :: PassThrow err :: late ∧
    failed ok = [] ∧ Forall answer_event ok ∧ Forall answer_event late.
Proof.
  intros Htasks. revert st.
  induction Htasks as [|[[file code] resume] tasks [Hres _] Htasks IH];
    intros st; simpl; [done|].
  unfold task_file in Hres. simpl in Hres. subst resume.
  destruct (resume_minify file (transform_minify code) st) as [r st1] eqn:Hr.
  apply resume_minify_effect in Hr as (evs_w & [Ht _ _] & Hevs_w & _).
  destruct r as [err1|[]].
  - destruct Hevs_w as [[_ ->]|[[=] _]]. rewrite app_nil_r in Ht.
    intros Hrest.
    pose proof Hrest as (evs & _ & _ & _ & _ & _ & Hkeep & _)%resume_all_spec;
      [|done].
    specialize (Hkeep _ eq_refl). injection Hkeep as Hkeep. subst err1.
    apply resume_all_late in Hrest as (late & Ht' & Hlate & _); [|done].
    exists [], file, late. simpl in *. rewrite Ht', Ht, <- !app_assoc.
    by repeat split.
  - destruct Hevs_w as [[[=] _]|[_ ->]].
    intros (ok & f & late & Ht' & Hf & Hok & Hlate)%IH.
    exists (WriteFile file :: Settle file true :: ok), f, late.
    simpl in *. rewrite Ht', Ht, <- !app_assoc.
    split; [done|]. split; [done|]. split; [|done].
    by repeat constructor.
Qed.

(** A pass in which a transform failed has thrown: right after the
    dispatch when a call was rejected by then, right after the first
    rejected answer otherwise. *)
Lemma optimize_throw bd schedule st0 promises st3 :
  let run := optimize config options bd schedule st0 in
  dispatch_all options bd (preloadModuleFile config bd)
    (scan config options bd (files st0))
    (new_Set (record StartService (set_service Running st0)))
    = (promises, st3) →
  ∃ evs,
    trace (snd run) = trace st0 ++ evs ∧
    (failed evs = [] ∨
     ∃ err pre post,
       fst run = inl err ∧ evs = pre ++ PassThrow err :: post ∧
       Forall answer_event post ∧
       (first_rejection promises = Some err ∧
        trace st3 = trace st0 ++ pre ∧
        settled post = map task_file (arrange schedule (awaiting promises))
        ∨ first_rejection promises = None ∧
          ∃ pre' f, pre = pre' ++ [Settle f false] ∧ failed pre' = [])).
Proof.
  intros run Hd. subst run. unfold optimize. cbv zeta.
  change (files (record StartService (set_service Running st0)))
    with (files st0).
  rewrite Hd.
  apply dispatch_all_spec in Hd
    as (evs_d & [Ht_d _ _] & _ & _ & _ & Hfail & _ & Htasks & _).
  simpl in Ht_d.
  set (answers := arrange schedule (awaiting promises)).
  assert (Forall task_ok answers) as Hans.
  { unfold answers. by rewrite arrange_perm. }
  destruct (first_rejection promises) as [err|] eqn:Hrej.
  - destruct (resume_all (Some err) answers (record (PassThrow err) st3))
      as [thrown' st4] eqn:Hr.
    apply resume_all_late in Hr as (late & Ht & Hlate & Hs); [|done].
    simpl in Ht. exists ((StartService :: evs_d) ++ PassThrow err :: late).
    split. { simpl. rewrite Ht, Ht_d, <- !app_assoc. done. }
    right. exists err, (StartService :: evs_d), late.
    do 3 (split; [done|]). left. split; [done|]. split; [|done].
    rewrite Ht_d, <- app_assoc. done.
  - specialize (Hfail eq_refl).
    destruct (resume_all None answers st3) as [[err|] st4] eqn:Hr.
    + apply resume_all_first in Hr as (ok & f & late & Ht & Hf & _ & Hlate);
        [|done].
      exists (((StartService :: evs_d ++ ok) ++ [Settle f false]) ++
              PassThrow err :: late).
      split. { simpl. rewrite Ht, Ht_d, <- !app_assoc. done. }
      right. exists err, ((StartService :: evs_d ++ ok) ++ [Settle f false]),
               late.
      do 3 (split; [done|]). right. split; [done|].
      exists (StartService :: evs_d ++ ok), f. split; [done|].
      change (failed (StartService :: ?l)) with (failed l).
      by rewrite failed_app, Hfail, Hf.
    + apply resume_all_spec in Hr
        as (evs_r & [Ht _ _] & _ & _ & _ & Hnone & _); [|done].
      destruct (Hnone eq_refl) as (_ & Hfr & _).
      destruct (writeModulePreloadFile _ st4) as [r st5] eqn:Hw.
      apply writeModulePreloadFile_effect in Hw
        as [[Hr ->]|(-> & [Ht5 _ _])].
      * destruct r as [err|[]]; [|done].
        exists (StartService :: evs_d ++ evs_r ++ [ReadSet; PassThrow err]).
        split. { simpl. rewrite Ht, Ht_d, <- !app_assoc. done. }
        left. change (failed (StartService :: ?l)) with (failed l).
        by rewrite !failed_app, Hfail, Hfr.
      * exists (StartService :: evs_d ++ evs_r ++
                [ReadSet; WriteFile (preloadModuleFile config bd);
                 StopService; PassReturn]).
        split. { simpl. rewrite Ht5, Ht, Ht_d, <- !app_assoc. done. }
        left. change (failed (StartService :: ?l)) with (failed l).
        by rewrite !failed_app, Hfail, Hfr.
Qed.

End Throw.

(** ** The service and the barrier *)

Ltac not_in_list H :=
  repeat (apply elem_of_cons in H as [H|H]; [discriminate H|]);
  by apply elem_of_nil in H.

Lemma transform_event_inv evs ev :
  Forall transform_event evs → ev ∈ evs → transform_event ev.
Proof. intros Hall Hev. by eapply Forall_forall in Hall. Qed.

Lemma late_event_inv evs ev :
  Forall late_event evs → ev ∈ evs → late_event ev.
Proof. intros Hall Hev. by eapply Forall_forall in Hall. Qed.

(** A list splits in one way around an element that occurs once. *)
Lemma app_cons_unique {A} (x : A) (a b pre post : list A) :
  x ∉ a → x ∉ b → a ++ x :: b = pre ++ x :: post → pre = a ∧ post = b.
Proof.
  revert pre. induction a as [|y a IH]; intros pre Ha Hb Heq.
  - destruct pre as [|z pre]; simpl in Heq.
    + by injection Heq as <-.
    + injection Heq as <- ->. set_solver.
  - destruct pre as [|z pre]; simpl in Heq.
    + injection Heq as -> _. set_solver.
    + injection Heq as <- Heq. apply IH in Heq as [-> ->]; set_solver.
Qed.

(** C1, as amended: the service is started before anything is dispatched,
    and it is stopped, after the emitter has written the file, when the pass
    returns; when the pass throws, the service has not been stopped and is
    still running. *)
Theorem C1_service_started_first_stopped_on_return `{Host}
    (config : SnowpackConfig) (options : option OptimizePluginOptions)
    (buildDirectory : string) (schedule : list nat) (st0 : State) :
  let run := optimize config options buildDirectory schedule st0 in
  ∃ evs,
    trace (snd run) = trace st0 ++ StartService :: evs ∧
    (fst run = inr tt →
     esbuildService (snd run) = Stopped ∧
     ∃ pre, evs = pre ++ [ReadSet;
                          WriteFile (preloadModuleFile config buildDirectory);
                          StopService; PassReturn] ∧
            StopService ∉ pre) ∧
    (∀ err, fst run = inl err →
     esbuildService (snd run) = Running ∧
     (StopService ∉ evs) ∧ PassThrow err ∈ evs).
Proof.
  intros run.
  destruct (optimize_shape config options buildDirectory schedule st0)
    as (evs_d & evs_r & tail & Htrace & Hend & Htr_d & Hl_r & _).
  fold run in Htrace, Hend.
  exists (evs_d ++ tail). split; [done|].
  assert (StopService ∉ evs_d) as Hd.
  { intros Hin. by apply (transform_event_inv _ _ Htr_d) in Hin. }
  assert (StopService ∉ evs_r) as Hr.
  { intros Hin. by apply (late_event_inv _ _ Hl_r) in Hin. }
  destruct Hend as [err|err Hthrow|err Hnofail Htr_r|Hnofail Htr_r].
  - split; [done|]. intros err' [= <-]. split; [done|]. set_solver.
  - split; [done|]. intros err' [= <-]. split; [done|]. set_solver.
  - split; [done|]. intros err' [= <-]. split; [done|]. set_solver.
  - split; [|done]. intros _. split; [done|].
    exists (evs_d ++ evs_r). rewrite <- app_assoc. set_solver.
Qed.

Lemma C1_service_started_first_stopped_on_return_witness :
  let st0 := Sample.initial [("/out/__snowpack__", Dir);
                             ("/out/app.js", File Sample.big_js)] in
  esbuildService
    (snd (optimize (H := Sample.host) Sample.config (Sample.options true)
                   "/out" [] st0)) = Stopped.
Proof.
  intros st0.
  destruct (C1_service_started_first_stopped_on_return (H := Sample.host)
              Sample.config (Sample.options true) "/out" [] st0)
    as (evs & _ & Hreturn & _).
  apply Hreturn. reflexivity.
Defined.

(** The claim of C1 as the specification words it fails: a script that does
    not parse makes the pass throw, and the service is left running. *)
Lemma C1_counterexample :
  let st0 := Sample.initial [("/out/app.js", File Sample.broken_js)] in
  let run := optimize (H := Sample.host) Sample.config (Sample.options false)
                      "/out" [] st0 in
  trace (snd run) =
    [StartService; Dispatch "/out/app.js"; Settle "/out/app.js" false;
     PassThrow (trouble "/out/app.js" (new_Error "Parse error @:1:9"))] ∧
  fst run = inl (trouble "/out/app.js" (new_Error "Parse error @:1:9")) ∧
  esbuildService (snd run) = Running.
Proof. vm_compute. done. Qed.

(** The barrier: what [Promise.all] makes the emitter and the return wait
    for. *)
Lemma optimize_barrier `{Host}
    (config : SnowpackConfig) (options : option OptimizePluginOptions)
    (buildDirectory : string) (schedule : list nat) (st0 : State) :
  let run := optimize config options buildDirectory schedule st0 in
  ∃ evs,
    trace (snd run) = trace st0 ++ evs ∧
    dispatched evs =
      joined buildDirectory (scan config options buildDirectory (files st0)) ∧
    settled evs ≡ₚ dispatched evs ∧
    (∀ pre ev post,
       evs = pre ++ ev :: post → ev = ReadSet ∨ ev = PassReturn →
       settled pre ≡ₚ dispatched evs ∧ failed pre = []) ∧
    (failed evs ≠ [] → is_ok (fst run) = false ∧ ReadSet ∉ evs).
Proof.
  intros run.
  destruct (optimize_shape config options buildDirectory schedule st0)
    as (evs_d & evs_r & tail & Htrace & Hend & Htr_d & Hl_r & Hdisp & Hsett & _).
  fold run in Htrace, Hend.
  exists (StartService :: evs_d ++ tail). split; [done|].
  assert (dispatched evs_r = []) as Hdr by by apply late_not_dispatched.
  assert (∀ ev, ev = ReadSet ∨ ev = PassReturn → ev ∉ evs_d) as Hnd.
  { intros ev Hev Hin. apply (transform_event_inv _ _ Htr_d) in Hin.
    by destruct Hev as [-> | ->]. }
  assert (∀ ev, ev = ReadSet ∨ ev = PassReturn → ev ∉ evs_r) as Hnr.
  { intros ev Hev Hin. apply (late_event_inv _ _ Hl_r) in Hin.
    by destruct Hev as [-> | ->]. }
  assert (∀ pre ev post, ev = ReadSet ∨ ev = PassReturn →
            ev ∉ tail → StartService :: evs_d ++ tail = pre ++ ev :: post →
            False) as Habsent.
  { intros pre ev post Hev Htail Heq.
    assert (ev ∈ StartService :: evs_d ++ tail) as Hin
      by (rewrite Heq; set_solver).
    apply elem_of_cons in Hin as [->|Hin]; [by destruct Hev|].
    apply elem_of_app in Hin as [Hin|Hin]; [by eapply Hnd|done]. }
  destruct Hend as [err|err Hthrow|err Hnofail Htr_r|Hnofail Htr_r].
  - change (dispatched (StartService :: evs_d ++ PassThrow err :: evs_r))
      with (dispatched (evs_d ++ PassThrow err :: evs_r)).
    change (settled (StartService :: evs_d ++ PassThrow err :: evs_r))
      with (settled (evs_d ++ PassThrow err :: evs_r)).
    rewrite dispatched_app, settled_app. simpl.
    change (dispatched (PassThrow err :: evs_r)) with (dispatched evs_r).
    change (settled (PassThrow err :: evs_r)) with (settled evs_r).
    rewrite Hdr, app_nil_r, <- settled_app.
    split; [done|]. split; [done|]. split.
    + intros pre ev post Heq Hev. exfalso.
      eapply (Habsent pre ev post); [done| |done].
      intros [->|Hin]%elem_of_cons; [by destruct Hev|by eapply Hnr].
    + intros _. split; [done|].
      intros [[=]|[Hin|[[=]|Hin]%elem_of_cons]%elem_of_app]%elem_of_cons.
      * by eapply (Hnd ReadSet); [left|].
      * by eapply (Hnr ReadSet); [left|].
  - change (dispatched (StartService :: evs_d ++ evs_r))
      with (dispatched (evs_d ++ evs_r)).
    change (settled (StartService :: evs_d ++ evs_r))
      with (settled (evs_d ++ evs_r)).
    rewrite dispatched_app, Hdr, app_nil_r.
    split; [done|]. split; [done|]. split.
    + intros pre ev post Heq Hev. exfalso.
      eapply (Habsent pre ev post); [done|by apply Hnr|done].
    + intros _. split; [done|].
      intros [[=]|[Hin|Hin]%elem_of_app]%elem_of_cons.
      * by eapply (Hnd ReadSet); [left|].
      * by eapply (Hnr ReadSet); [left|].
  - change (dispatched (StartService :: ?l)) with (dispatched l).
    change (settled (StartService :: ?l)) with (settled l).
    change (failed (StartService :: ?l)) with (failed l).
    rewrite !dispatched_app, !settled_app, !failed_app, Hdr. simpl.
    rewrite !app_nil_r, <- settled_app, <- failed_app.
    split; [done|]. split; [done|]. split.
    + intros pre ev post Heq [-> | ->].
      * change (StartService :: evs_d ++ evs_r ++ [ReadSet; PassThrow err])
          with ((StartService :: evs_d) ++ evs_r ++ [ReadSet; PassThrow err])
          in Heq.
        rewrite app_assoc in Heq.
        apply app_cons_unique in Heq as [-> ->].
        -- change (settled ((StartService :: evs_d) ++ evs_r))
             with (settled (evs_d ++ evs_r)).
           change (failed ((StartService :: evs_d) ++ evs_r))
             with (failed (evs_d ++ evs_r)).
           done.
        -- intros [[[=]|Hin]%elem_of_cons|Hin]%elem_of_app.
           ++ by eapply (Hnd ReadSet); [left|].
           ++ by eapply (Hnr ReadSet); [left|].
        -- intros Hin. not_in_list Hin.
      * exfalso. eapply (Habsent pre PassReturn post); [by right| |done].
        intros [Hin|Hin]%elem_of_app; [by eapply Hnr; [right|]|].
        not_in_list Hin.
    + intros Hf. by rewrite Hnofail in Hf.
  - set (dest := preloadModuleFile config buildDirectory) in *.
    change (dispatched (StartService :: ?l)) with (dispatched l).
    change (settled (StartService :: ?l)) with (settled l).
    change (failed (StartService :: ?l)) with (failed l).
    rewrite !dispatched_app, !settled_app, !failed_app, Hdr. simpl.
    rewrite !app_nil_r, <- settled_app, <- failed_app.
    split; [done|]. split; [done|]. split.
    + intros pre ev post Heq [-> | ->].
      * change (StartService :: evs_d ++ evs_r ++ ?l)
          with ((StartService :: evs_d) ++ evs_r ++ l) in Heq.
        rewrite app_assoc in Heq.
        apply app_cons_unique in Heq as [-> ->].
        -- change (settled ((StartService :: evs_d) ++ evs_r))
             with (settled (evs_d ++ evs_r)).
           change (failed ((StartService :: evs_d) ++ evs_r))
             with (failed (evs_d ++ evs_r)).
           done.
        -- intros [[[=]|Hin]%elem_of_cons|Hin]%elem_of_app.
           ++ by eapply (Hnd ReadSet); [left|].
           ++ by eapply (Hnr ReadSet); [left|].
        -- intros Hin. not_in_list Hin.
      * change (StartService :: evs_d ++ evs_r ++
                  [ReadSet; WriteFile dest; StopService; PassReturn])
          with ((StartService :: evs_d) ++ evs_r ++
                  [ReadSet; WriteFile dest; StopService] ++ PassReturn :: [])
          in Heq.
        rewrite !app_assoc in Heq.
        apply app_cons_unique in Heq as [-> ->].
        -- rewrite <- !app_assoc.
           change (settled ((StartService :: evs_d) ++ evs_r ++ ?l))
             with (settled (evs_d ++ evs_r ++ l)).
           change (failed ((StartService :: evs_d) ++ evs_r ++ ?l))
             with (failed (evs_d ++ evs_r ++ l)).
           rewrite !app_assoc, settled_app, failed_app. simpl.
           by rewrite !app_nil_r.
        -- rewrite <- !app_assoc.
           intros [[[=]|Hin]%elem_of_cons|[Hin|Hin]%elem_of_app]%elem_of_app.
           ++ by eapply (Hnd PassReturn); [right|].
           ++ by eapply (Hnr PassReturn); [right|].
           ++ not_in_list Hin.
        -- intros Hin. not_in_list Hin.
    + intros Hf. by rewrite Hnofail in Hf.
Qed.

(** C2, as amended: every enumerated file is dispatched and every
    dispatched transform runs to its end; the emitter reads the set, and the
    pass returns, only after all of them have settled, none with a failure;
    a failed transform makes the pass throw and keeps the emitter from
    running.  The throw does not wait for the transforms still suspended:
    when a call is rejected before the dispatch is over, the pass throws as
    soon as the dispatch ends and every suspended call settles after the
    throw; otherwise the pass throws right after the first answer that is
    rejected, and what follows the throw are the calls still suspended
    then. *)
Theorem C2_emitter_after_all_transforms `{Host}
    (config : SnowpackConfig) (options : option OptimizePluginOptions)
    (buildDirectory : string) (schedule : list nat) (st0 : State) :
  let run := optimize config options buildDirectory schedule st0 in
  let dispatch :=
    dispatch_all options buildDirectory
      (preloadModuleFile config buildDirectory)
      (scan config options buildDirectory (files st0))
      (new_Set (record StartService (set_service Running st0))) in
  ∃ evs,
    trace (snd run) = trace st0 ++ evs ∧
    dispatched evs =
      joined buildDirectory (scan config options buildDirectory (files st0)) ∧
    settled evs ≡ₚ dispatched evs ∧
    (∀ pre ev post,
       evs = pre ++ ev :: post → ev = ReadSet ∨ ev = PassReturn →
       settled pre ≡ₚ dispatched evs ∧ failed pre = []) ∧
    (failed evs ≠ [] → is_ok (fst run) = false ∧ ReadSet ∉ evs) ∧
    (failed evs ≠ [] →
     ∃ err pre post,
       fst run = inl err ∧ evs = pre ++ PassThrow err :: post ∧
       Forall answer_event post ∧
       (first_rejection (fst dispatch) = Some err ∧
        trace (snd dispatch) = trace st0 ++ pre ∧
        settled post =
          map task_file (arrange schedule (awaiting (fst dispatch)))
        ∨ first_rejection (fst dispatch) = None ∧
          ∃ pre' f, pre = pre' ++ [Settle f false] ∧ failed pre' = [])).
Proof.
  intros run dispatch.
  destruct (optimize_barrier config options buildDirectory schedule st0)
    as (evs & Htrace & Hdisp & Hsett & Hwait & Habort).
  fold run in Htrace, Habort.
  destruct dispatch as [promises st3] eqn:Hd. subst dispatch.
  destruct (optimize_throw config options buildDirectory schedule st0
              promises st3 Hd) as (evs' & Htrace' & Hthrow).
  fold run in Htrace', Hthrow.
  assert (evs' = evs) as ->.
  { rewrite Htrace in Htrace'. by apply app_inv_head in Htrace'. }
  exists evs. do 5 (split; [done|]).
  intros Hfailed. by destruct Hthrow as [Hnone|Hthrow].
Qed.

Lemma C2_emitter_after_all_transforms_witness :
  let st0 := Sample.initial [("/out/a.js", File Sample.invalid_js);
                             ("/out/b.js", File Sample.big_js)] in
  let run := optimize (H := Sample.host) Sample.config (Sample.options true)
                      "/out" [] st0 in
  is_ok (fst run) = false ∧ ReadSet ∉ trace (snd run).
Proof.
  intros st0 run.
  destruct (C2_emitter_after_all_transforms (H := Sample.host)
              Sample.config (Sample.options true) "/out" [] st0)
    as (evs & Htrace & _ & _ & _ & Habort & _).
  fold run in Htrace, Habort. rewrite Htrace.
  apply Habort.
  assert (evs = trace (snd run)) as -> by (by rewrite Htrace).
  by vm_compute.
Defined.

(** The claim of C2 as the specification words it fails where it says that
    the orchestrator waits for every transform before it proceeds, failures
    included: when the minifier rejects [a.js], the pass throws while the
    transform of [b.js] is still suspended; that transform writes its file
    and settles after the throw. *)
Lemma C2_counterexample :
  let st0 := Sample.initial [("/out/a.js", File Sample.invalid_js);
                             ("/out/b.js", File Sample.big_js)] in
  let run := optimize (H := Sample.host) Sample.config (Sample.options true)
                      "/out" [] st0 in
  let err := trouble "/out/a.js"
               (new_Error "Transform failed with 1 error") in
  let pre := [StartService; Dispatch "/out/a.js"; Dispatch "/out/b.js";
              Settle "/out/a.js" false] in
  trace (snd run) =
    pre ++ PassThrow err :: [WriteFile "/out/b.js"; Settle "/out/b.js" true] ∧
  fst run = inl err ∧
  ¬ settled pre ≡ₚ dispatched (trace (snd run)).
Proof.
  split; [by vm_compute|]. split; [by vm_compute|].
  intros Hperm. apply Permutation_length in Hperm. vm_compute in Hperm.
  discriminate.
Qed.

(** ** Scripts *)

(** C5: on a script that is read and parsed, the set gains exactly the
    paths of the static specifiers, each resolved against the directory of
    the importing file; the dynamic entries add nothing, so a script with
    dynamic imports only leaves the set as it was. *)
Theorem C5_static_imports_are_registered `{Host}
    (options : option OptimizePluginOptions) (file dest : string) (st : State)
    (code : string) (imports : list ImportSpecifier) :
  baseExt file = ".js" ∨ baseExt file = ".mjs" →
  fs_read (files st) file = inr code →
  parse code = inr imports →
  let st' := snd (optimizeFile options file dest st) in
  (∀ p, p ∈ modulesToPreload st' ↔
        p ∈ modulesToPreload st ∨
        ∃ imp, imp ∈ imports ∧ imp_d imp = -1 ∧
               p = path_resolve (path_dirname file)
                     (js_substring code (imp_s imp) (imp_e imp))) ∧
  ((∀ imp, imp ∈ imports → imp_d imp ≠ -1) →
   modulesToPreload st' = modulesToPreload st).
Proof.
  intros Hext Hread Hparse st'.
  assert (modulesToPreload st' =
          add_all (static_paths file code imports) (modulesToPreload st))
    as Hset.
  { subst st'. rewrite optimizeFile_script by done.
    rewrite (scan_imports_ok _ _ _ code imports) by done.
    by destruct (options_minifyJS options) as [err|[[]|]]. }
  rewrite Hset. split.
  - intros p. by rewrite elem_of_add_all, elem_of_static_paths.
  - intros Hdyn. unfold static_paths.
    replace (filter _ imports) with (@nil ImportSpecifier); [done|].
    symmetry. clear Hparse Hset. induction imports as [|imp imports IH]; [done|].
    rewrite filter_cons_False.
    + apply IH. intros imp' Himp'. apply Hdyn. by right.
    + intros Hs. apply (Hdyn imp); [by left|]. by apply Z.eqb_eq.
Qed.

Lemma C5_static_imports_are_registered_witness :
  modulesToPreload
    (snd (optimizeFile (H := Sample.host) (Sample.options false)
            "/out/main.js" "/out/__snowpack__/module-preload.mjs"
            (Sample.initial [("/out/main.js", File Sample.main_js)])))
  = ["/out/util.js"] ∧
  modulesToPreload
    (snd (optimizeFile (H := Sample.host) (Sample.options false)
            "/out/lazy.js" "/out/__snowpack__/module-preload.mjs"
            (Sample.initial [("/out/lazy.js", File Sample.lazy_js)])))
  = [].
Proof.
  split; [reflexivity|].
  refine (proj2 (C5_static_imports_are_registered (H := Sample.host)
    (Sample.options false) "/out/lazy.js"
    "/out/__snowpack__/module-preload.mjs"
    (Sample.initial [("/out/lazy.js", File Sample.lazy_js)])
    Sample.lazy_js [mkImport 7 18 0] _ _ _) _).
  - left. reflexivity.
  - reflexivity.
  - reflexivity.
  - intros imp Himp. apply list_elem_of_singleton in Himp as ->. simpl. lia.
Defined.

(** ** Failures *)

(** C6: a failure in the markup case reaches the caller as it was thrown,
    without the file path around it: the rejection of the call is the very
    error of the read, of [appendHTMLToHead] or of the write.  Only the
    script case wraps its failures ([trouble]). *)
Theorem C6_markup_failure_is_not_wrapped `{Host}
    (options : option OptimizePluginOptions) (file dest : string)
    (st st' : State) (err : JsError) :
  baseExt file = ".html" →
  optimizeFile options file dest st = (Settled (inl err), st') →
  st' = st ∧
  (fs_read (files st) file = inl err ∨
   ∃ code,
     fs_read (files st) file = inr code ∧
     (appendHTMLToHead code (preloadScript file dest) = inl err ∨
      ∃ code',
        appendHTMLToHead code (preloadScript file dest) = inr code' ∧
        fs_write (files st) file code' = inl err)).
Proof.
  intros Hext. rewrite optimizeFile_html by done.
  destruct (fs_read (files st) file) as [e|code].
  { intros [= <- <-]. split; [done|by left]. }
  destruct (appendHTMLToHead code _) as [e|code'] eqn:Happ.
  { intros [= <- <-]. split; [done|]. right. exists code. auto. }
  destruct (fs_write (files st) file code') as [e|fs'] eqn:Hw; [|done].
  intros [= <- <-]. split; [done|]. right. exists code. split; [done|].
  right. by exists code'.
Qed.

Lemma C6_markup_failure_is_not_wrapped_witness :
  let st0 := Sample.initial [("/out/docs.html", Dir)] in
  fs_read (files st0) "/out/docs.html" =
    inl (new_Error "EISDIR: illegal operation on a directory, read").
Proof.
  intros st0.
  destruct (C6_markup_failure_is_not_wrapped (H := Sample.host)
              (Sample.options false) "/out/docs.html"
              "/out/__snowpack__/module-preload.mjs" st0 st0 EISDIR_read)
    as [_ [Hread|(code & Hread & _)]].
  - reflexivity.
  - reflexivity.
  - exact Hread.
  - discriminate Hread.
Defined.

(** The script case, for comparison: every rejection of a script, before
    the [await] or after it, is a [trouble] that names the file. *)
Lemma script_rejection_is_wrapped `{Host}
    (options : option OptimizePluginOptions) (file dest : string)
    (st st' : State) (err : JsError) :
  baseExt file = ".js" ∨ baseExt file = ".mjs" →
  optimizeFile options file dest st = (Settled (inl err), st') →
  ∃ cause, err = trouble file cause.
Proof.
  intros Hext. rewrite optimizeFile_script by done.
  destruct (scan_imports options file st) as [[cause|[code []]] st1];
    intros [= <- <-]. eauto.
Qed.

Lemma resumed_rejection_is_wrapped `{Host} (file : string)
    (minified : result string) (st st' : State) (err : JsError) :
  resume_minify file minified st = (inl err, st') →
  ∃ cause, err = trouble file cause.
Proof.
  unfold resume_minify, try_catch, throw.
  destruct (finish_minify file minified st) as [[cause|[]] st1];
    intros [= <- <-]. eauto.
Qed.

(** The two cases on a directory that carries a file extension. *)
Example failure_messages :
  let st0 := Sample.initial [("/out/docs.html", Dir); ("/out/app.js", Dir)] in
  let dest := "/out/__snowpack__/module-preload.mjs" in
  fst (optimizeFile (H := Sample.host) (Sample.options false)
         "/out/docs.html" dest st0) =
    Settled (inl (new_Error
      "EISDIR: illegal operation on a directory, read")) ∧
  fst (optimizeFile (H := Sample.host) (Sample.options false)
         "/out/app.js" dest st0) =
    Settled (inl (new_Error
      ("Trouble optimizing JS: /out/app.js" +:+ newline +:+
       "Error: EISDIR: illegal operation on a directory, read"))).
Proof. split; reflexivity. Qed.

(** ** The ignore list *)

(** C8: an [exclude] given as one string is spread into its characters,
    each of which becomes a pattern of its own.  With [*.map] the list holds
    the pattern [*], which hides every entry of the output root. *)
Theorem C8_exclude_string_is_spread :
  let options := Some {| exclude := Some (ExcludeString "*.map");
                         minifyCSS := None; minifyHTML := None;
                         minifyJS := None |} in
  let files := list_to_map [("/out/index.html", File "<head></head>");
                            ("/out/app.js", File "export {}");
                            ("/out/app.js.map", File "{}")] in
  ignore_list Sample.config options =
    ["__snowpack__/*"; "*"; "."; "m"; "a"; "p"] ∧
  scan (H := Sample.host) Sample.config options "/out" files = [].
Proof. split; by vm_compute. Qed.

(** An [exclude] given as an array is merged as it is. *)
Lemma exclude_array_is_merged (config : SnowpackConfig)
    (o : OptimizePluginOptions) (patterns : list string) :
  exclude o = Some (ExcludeArray patterns) →
  ignore_list config (Some o) = (metaDir config +:+ "/*") :: patterns.
Proof. intros Hex. unfold ignore_list. by rewrite Hex. Qed.

Lemma exclude_string_is_spread (config : SnowpackConfig)
    (o : OptimizePluginOptions) (pattern : string) :
  exclude o = Some (ExcludeString pattern) →
  ignore_list config (Some o) =
    (metaDir config +:+ "/*") :: spread_string pattern.
Proof. intros Hex. unfold ignore_list. by rewrite Hex. Qed.

(** ** The scan *)

Lemma string_app_assoc (a b c : string) : (a +:+ b) +:+ c = a +:+ b +:+ c.
Proof.
  induction a as [|x a IH]; [done|].
  change (String x ((a +:+ b) +:+ c) = String x (a +:+ b +:+ c)).
  by f_equal.
Qed.

Lemma strip_prefix_Some prefix s rest :
  strip_prefix prefix s = Some rest ↔ s = prefix +:+ rest.
Proof.
  revert s. induction prefix as [|a prefix IH]; intros s; simpl.
  { split; [by intros [= ->]|by intros ->]. }
  destruct s as [|b s]; [done|].
  destruct (decide (a = b)) as [->|Hne].
  - rewrite IH. split; [by intros ->|by intros [= ->]].
  - split; [done|]. by intros [= -> _].
Qed.



Lemma isIgnored_true ignore pattern rel :
  pattern ∈ ignore → minimatch true pattern rel = true →
  isIgnored ignore rel = true.
Proof.
  intros Hin Hm. unfold isIgnored. apply existsb_exists.
  exists pattern. split; [by apply list_elem_of_In|]. by rewrite Hm.
Qed.







Lemma swallowable_visible seg :
  seg ≠ EmptyString → starts_with_dot seg = false → swallowable false seg = true.
Proof.
  intros Hne Hdot. unfold swallowable. rewrite Hdot. simpl.
  rewrite andb_true_r. apply andb_true_iff.
  split; apply negb_true_iff, bool_decide_eq_false; intros ->; done.
Qed.








(** ** What a pass leaves on disk *)

Lemma NoDup_omap_inj {A B} (f : A → option B) (l : list A) :
  NoDup l →
  (∀ x y z, x ∈ l → y ∈ l → f x = Some z → f y = Some z → x = y) →
  NoDup (omap f l).
Proof.
  induction 1 as [|x l Hx Hnd IH]; intros Hinj; simpl; [constructor|].
  assert (NoDup (omap f l)) as Hrest.
  { apply IH. intros a b z Ha Hb. apply Hinj; by right. }
  destruct (f x) as [z|] eqn:Hfx; [|done].
  constructor; [|done].
  intros (y & Hy & Hfy)%list_elem_of_omap.
  assert (x = y) as -> by (apply (Hinj x y z); [by left|by right|done..]).
  done.
Qed.

Lemma entries_below_NoDup cwd (fs : gmap string node) :
  NoDup (entries_below cwd fs).
Proof.
  unfold entries_below. apply NoDup_omap_inj; [apply NoDup_map_to_list|].
  intros [p1 n1] [p2 n2] rel Hin1%elem_of_map_to_list Hin2%elem_of_map_to_list.
  simpl. intros ->%strip_prefix_Some ->%strip_prefix_Some.
  f_equal. congruence.
Qed.

(** The scan returns no path twice; neither does the dispatch when
    [path.join] keeps the enumerated paths apart. *)
Lemma scan_NoDup `{Host} config options bd (fs : gmap string node) :
  NoDup (scan config options bd fs).
Proof.
  unfold scan, glob_sync. rewrite js_sort_perm.
  apply NoDup_filter, entries_below_NoDup.
Qed.

Lemma joined_NoDup `{Host} bd (allFiles : list string) :
  NoDup allFiles →
  (∀ a b, a ∈ allFiles → b ∈ allFiles →
          path_join [bd; a] = path_join [bd; b] → a = b) →
  NoDup (joined bd allFiles).
Proof.
  induction 1 as [|x l Hx Hnd IH]; intros Hinj; simpl; [constructor|].
  constructor.
  - intros (y & Heq & Hy)%list_elem_of_fmap.
    assert (x = y) as -> by (apply Hinj; [by left|by right|done]). done.
  - apply IH. intros a b Ha Hb. apply Hinj; by right.
Qed.

Section Disk.
Context `{Host}.
Variable config : SnowpackConfig.
Variable options : option OptimizePluginOptions.

(** A markup file that is dispatched once has the link in its head when all
    calls have given control back. *)
Lemma dispatch_all_html bd dest allFiles st promises st' file code code' :
  dispatch_all options bd dest allFiles st = (promises, st') →
  file ∈ joined bd allFiles →
  NoDup (joined bd allFiles) →
  baseExt file = ".html" →
  files st !! file = Some (File code) →
  appendHTMLToHead code (preloadScript file dest) = inr code' →
  files st' !! file = Some (File code').
Proof.
  revert st promises st'.
  induction allFiles as [|rel rest IH]; intros st promises st' Hd Hin Hnd Hext
    Hfile Happ; simpl in *.
  { by apply elem_of_nil in Hin. }
  apply NoDup_cons in Hnd as [Hfresh Hnd].
  set (file' := path_join [bd; rel]) in *.
  destruct (optimizeFile options file' dest (record (Dispatch file') st))
    as [a st1] eqn:Hopt.
  set (st2 := match a with
              | Settled r => record (Settle file' (is_ok r)) st1
              | Awaiting _ _ => st1
              end) in *.
  assert (files st2 = files st1) as Hst2 by (by destruct a).
  destruct (dispatch_all options bd dest rest st2) as [ps st3] eqn:Hrest.
  injection Hd as <- <-.
  destruct (decide (file = file')) as [->|Hne].
  - rewrite optimizeFile_html in Hopt by done.
    unfold fs_read in Hopt. simpl in Hopt. rewrite Hfile, Happ in Hopt.
    rewrite fs_write_file in Hopt by (by eapply write_error_file).
    injection Hopt as <- <-.
    apply dispatch_all_spec in Hrest as (evs & [_ _ Hf] & _ & Hdisp & _ & _ & Hwr & _).
    rewrite Hf.
    + simpl. apply lookup_insert_eq.
    + intros Hw. apply Hwr in Hw as [Hw _]. by rewrite Hdisp in Hw.
  - apply elem_of_cons in Hin as [Hin|Hin]; [done|].
    eapply IH; eauto. rewrite Hst2.
    apply optimizeFile_effect in Hopt as (evs_o & [_ _ Hf] & Hevs_o & _).
    rewrite Hf; [done|].
    destruct Hevs_o as [->|[-> _]]; set_solver.
Qed.

End Disk.

(** ** Markup *)

(** C10: a markup file that the scan enumerates ends the pass with the
    module-preload link to the aggregator inserted by [appendHTMLToHead],
    once ([path.join] keeps the enumerated paths apart, so the file is
    visited once).  This depends neither on the options nor on what the
    scripts contain nor on the outcome of the other transforms: it holds
    with an empty set and when the pass throws. *)
Theorem C10_markup_gets_the_preload_link `{Host}
    (config : SnowpackConfig) (options : option OptimizePluginOptions)
    (buildDirectory : string) (schedule : list nat) (st0 : State)
    (rel code code' : string) :
  let file := path_join [buildDirectory; rel] in
  let dest := preloadModuleFile config buildDirectory in
  let allFiles := scan config options buildDirectory (files st0) in
  rel ∈ allFiles →
  (∀ a b, a ∈ allFiles → b ∈ allFiles →
          path_join [buildDirectory; a] = path_join [buildDirectory; b] →
          a = b) →
  baseExt file = ".html" →
  file ≠ dest →
  files st0 !! file = Some (File code) →
  appendHTMLToHead code
    ("<link rel=" +:+ dquote +:+ "modulepreload" +:+ dquote +:+ " href=" +:+
     dquote +:+ relativeURL (path_dirname file) dest +:+ dquote +:+ " />")
    = inr code' →
  files (snd (optimize config options buildDirectory schedule st0)) !! file
    = Some (File code').
Proof.
  intros file dest allFiles Hin Hinj Hext Hdest Hfile Happ.
  assert (NoDup (joined buildDirectory allFiles)) as Hnd.
  { apply joined_NoDup; [apply scan_NoDup|done]. }
  unfold optimize. cbv zeta. fold dest.
  set (st2 := new_Set (record StartService (set_service Running st0))).
  change (files (record StartService (set_service Running st0)))
    with (files st0).
  fold allFiles.
  destruct (dispatch_all options buildDirectory dest allFiles st2)
    as [promises st3] eqn:Hd.
  assert (files st3 !! file = Some (File code')) as Hf3.
  { eapply (dispatch_all_html options buildDirectory dest allFiles st2);
      eauto.
    unfold joined. apply list_elem_of_fmap. by exists rel. }
  apply dispatch_all_spec in Hd
    as (evs_d & _ & _ & Hdisp & Hsett & _ & _ & Htasks & _).
  set (answers := arrange schedule (awaiting promises)).
  assert (∀ thrown st thrown' st',
            files st !! file = Some (File code') →
            resume_all thrown answers st = (thrown', st') →
            files st' !! file = Some (File code')) as Hresume.
  { intros thrown st thrown' st' Hst Hr.
    apply resume_all_spec in Hr as (evs_r & [_ _ Hf] & _ & _ & Hw & _).
    - rewrite Hf; [done|]. intros Hp%Hw.
      apply list_elem_of_fmap in Hp as (t & -> & Ht).
      assert (task_ok t) as [_ Hscript].
      { eapply Forall_forall; [|exact Ht]. unfold answers.
        by rewrite arrange_perm. }
      by apply html_not_script in Hext.
    - unfold answers. by rewrite arrange_perm. }
  destruct (first_rejection promises) as [err|].
  - destruct (resume_all (Some err) answers (record (PassThrow err) st3))
      as [thrown' st4] eqn:Hr.
    simpl. by eapply Hresume in Hr.
  - destruct (resume_all None answers st3) as [thrown' st4] eqn:Hr.
    eapply Hresume in Hr; [|done].
    destruct thrown' as [err|]; [done|].
    destruct (writeModulePreloadFile dest st4) as [r st5] eqn:Hw.
    apply writeModulePreloadFile_effect in Hw as [[Hr' ->]|(-> & [_ _ Hf5])].
    + by destruct r as [err|[]].
    + simpl. rewrite Hf5; [done|]. set_solver.
Qed.

Lemma C10_markup_gets_the_preload_link_witness :
  let st0 := Sample.initial [("/out/index.html",
                              File "<html><head></head></html>");
                             ("/out/logo.svg", File "<svg/>")] in
  files (snd (optimize (H := Sample.host) Sample.config (Sample.options false)
                       "/out" [] st0)) !! "/out/index.html" =
  Some (File ("<html><head><link rel=" +:+ dquote +:+ "modulepreload" +:+
              dquote +:+ " href=" +:+ dquote +:+
              "./__snowpack__/module-preload.mjs" +:+ dquote +:+
              " /></head></html>")).
Proof.
  intros st0.
  apply (C10_markup_gets_the_preload_link (H := Sample.host) Sample.config
           (Sample.options false) "/out" [] st0 "index.html"
           "<html><head></head></html>").
  - vm_compute. set_solver.
  - intros a b Ha Hb.
    change (a ∈ ["index.html"; "logo.svg"]) in Ha.
    change (b ∈ ["index.html"; "logo.svg"]) in Hb.
    set_unfold in Ha; set_unfold in Hb.
    destruct Ha as [->|[->|[]]], Hb as [->|[->|[]]]; vm_compute; congruence.
  - reflexivity.
  - discriminate.
  - reflexivity.
  - reflexivity.
Defined.

(** ** The dispatch follows the scan *)





(** * Further properties of the plugin *)

(** ** The aggregator as lines *)

Lemma string_app_nil_r (a : string) : a +:+ EmptyString = a.
Proof.
  induction a as [|x a IH]; [done|].
  change (String x (a +:+ EmptyString) = String x a). by f_equal.
Qed.

Lemma preload_code_cons `{Host} dest url urls :
  urls ≠ [] →
  preload_code dest (url :: urls) =
  import_line dest url +:+ newline +:+ preload_code dest urls.
Proof.
  intros Hne. destruct urls as [|url' urls]; [done|].
  unfold preload_code, import_line.
  change (map ?f (url :: ?l)) with (f url :: map f l).
  set (rest := map _ (url' :: urls)).
  assert (∃ r rs, rest = r :: rs) as (r & rs & Hrest) by (by eexists _, _).
  rewrite Hrest.
  change (js_join ?sep (?x :: r :: rs)) with (x +:+ sep +:+ js_join sep (r :: rs)).
  by rewrite !string_app_assoc.
Qed.

Lemma preload_code_lines `{Host} dest urls :
  urls ≠ [] →
  preload_code dest urls = js_join newline (map (import_line dest) urls).
Proof.
  induction urls as [|url urls IH]; [done|]. intros _.
  destruct urls as [|url' urls]; [done|].
  rewrite preload_code_cons by done. rewrite IH by done. done.
Qed.

(** X1: for a set that is not empty the emitter writes one line per module,
    [import '<relative URL>';], in the sorted order, the lines separated by
    a line feed and the last one without a line feed after it. *)
Theorem X1_aggregator_has_one_import_line_per_module `{Host}
    (dest : string) (st : State) :
  modulesToPreload st ≠ [] →
  write_error (files st) dest = None →
  fst (writeModulePreloadFile dest st) = inr tt ∧
  files (snd (writeModulePreloadFile dest st)) !! dest =
    Some (File (js_join newline
                  (map (fun url => "import '" +:+
                                   relativeURL (path_dirname dest) url +:+ "';")
                       (js_sort localeCompare (modulesToPreload st))))).
Proof.
  intros Hne Hdir.
  destruct (writeModulePreloadFile_content dest st Hdir) as (st' & -> & Hf & _).
  split; [done|]. simpl. rewrite Hf. do 2 f_equal.
  apply preload_code_lines. intros Hnil.
  pose proof (js_sort_perm localeCompare (modulesToPreload st)) as Hperm.
  rewrite Hnil in Hperm. by apply Permutation_nil in Hperm.
Qed.

Lemma X1_aggregator_has_one_import_line_per_module_witness :
  files (snd (writeModulePreloadFile (H := Sample.host)
                "/out/__snowpack__/module-preload.mjs"
                (mkState {[ "/out/__snowpack__" := Dir ]}
                         ["/out/b.js"; "/out/a.js"] Running [])))
    !! "/out/__snowpack__/module-preload.mjs" =
  Some (File ("import '../a.js';" +:+ newline +:+ "import '../b.js';")).
Proof.
  refine (proj2 (X1_aggregator_has_one_import_line_per_module
                   (H := Sample.host) "/out/__snowpack__/module-preload.mjs"
                   (mkState {[ "/out/__snowpack__" := Dir ]}
                            ["/out/b.js"; "/out/a.js"] Running []) _ _)).
  - discriminate.
  - reflexivity.
Defined.

(** ** The state after the dispatch *)

Lemma Set_add_NoDup x set : NoDup set → NoDup (Set_add x set).
Proof.
  intros Hnd. unfold Set_add. case_decide; [done|].
  apply NoDup_app. split; [done|]. split; [set_solver|].
  apply NoDup_singleton.
Qed.

Lemma add_all_NoDup paths set : NoDup set → NoDup (add_all paths set).
Proof.
  revert set. induction paths as [|x paths IH]; intros set Hnd; [done|].
  simpl. by apply IH, Set_add_NoDup.
Qed.

Section Dispatch.
Context `{Host}.
Variable options : option OptimizePluginOptions.

Lemma script_not_html file :
  baseExt file = ".js" ∨ baseExt file = ".mjs" → baseExt file ≠ ".html".
Proof. intros Hs Hh. by apply html_not_script in Hh. Qed.

Lemma agree_refl (fs : gmap string node) : agree fs fs.
Proof. by intros p _. Qed.

Lemma agree_trans (fs1 fs2 fs3 : gmap string node) :
  agree fs1 fs2 → agree fs2 fs3 → agree fs1 fs3.
Proof. intros H12 H23 p Hp. by rewrite H23, H12. Qed.

Lemma fs_read_agree (fs fs' : gmap string node) p :
  agree fs fs' → baseExt p ≠ ".html" → fs_read fs' p = fs_read fs p.
Proof. intros Hag Hp. unfold fs_read. by rewrite Hag. Qed.

Lemma contributes_agree (fs fs' : gmap string node) file p :
  agree fs fs' → contributes fs' file p ↔ contributes fs file p.
Proof.
  intros Hag. unfold contributes.
  split; intros (Hs & code & imports & imp & Hread & Hrest);
    (split; [done|]); exists code, imports, imp; (split; [|done]).
  - by rewrite <- (fs_read_agree fs fs') by auto using script_not_html.
  - by rewrite (fs_read_agree fs fs') by auto using script_not_html.
Qed.

Lemma optimizeFile_agree file dest st a st' :
  optimizeFile options file dest st = (a, st') →
  agree (files st) (files st').
Proof.
  intros (evs & [_ _ Hf] & Hevs & _)%optimizeFile_effect p Hp.
  apply Hf. destruct Hevs as [->|[-> Hh]]; [set_solver|].
  intros ->%list_elem_of_singleton. done.
Qed.

(** What one call does to the set. *)
Lemma optimizeFile_modules file dest st a st' :
  optimizeFile options file dest st = (a, st') →
  (∀ p, p ∈ modulesToPreload st' ↔
        p ∈ modulesToPreload st ∨ contributes (files st) file p) ∧
  (NoDup (modulesToPreload st) → NoDup (modulesToPreload st')).
Proof.
  destruct (decide (baseExt file = ".js" ∨ baseExt file = ".mjs")) as [Hs|Hs].
  - rewrite optimizeFile_script by done.
    destruct (fs_read (files st) file) as [err|code] eqn:Hread.
    { rewrite (scan_imports_read_fails _ _ _ err) by done.
      intros [= <- <-]. split; [|done]. intros p. split; [by left|].
      intros [Hp|(_ & code & ? & ? & Hc & _)]; [done|congruence]. }
    destruct (parse code) as [err|imports] eqn:Hparse.
    { rewrite (scan_imports_parse_fails _ _ _ code err) by done.
      intros [= <- <-]. split; [|done]. intros p. split; [by left|].
      intros [Hp|(_ & code' & ? & ? & Hc & Hp' & _)]; [done|congruence]. }
    rewrite (scan_imports_ok _ _ _ code imports) by done.
    assert (∀ st1, st1 = with_modules
                           (add_all (static_paths file code imports)
                                    (modulesToPreload st)) st →
              (∀ p, p ∈ modulesToPreload st1 ↔
                    p ∈ modulesToPreload st ∨ contributes (files st) file p) ∧
              (NoDup (modulesToPreload st) → NoDup (modulesToPreload st1)))
      as Hset.
    { intros st1 ->. simpl. split; [|apply add_all_NoDup].
      intros p. rewrite elem_of_add_all, elem_of_static_paths.
      unfold contributes, specifier_path. split.
      - intros [Hp|(imp & Himp & Hd & ->)]; [by left|right].
        split; [done|]. by exists code, imports, imp.
      - intros [Hp|(_ & code' & imports' & imp & Hc & Hp' & Himp & Hd & ->)];
          [by left|right].
        assert (code' = code) as -> by congruence.
        assert (imports' = imports) as -> by congruence.
        by exists imp. }
    destruct (options_minifyJS options) as [err|[[]|]];
      intros [= <- <-]; by apply Hset.
  - assert (modulesToPreload st' = modulesToPreload st → 
            (∀ p, p ∈ modulesToPreload st' ↔
                  p ∈ modulesToPreload st ∨ contributes (files st) file p) ∧
            (NoDup (modulesToPreload st) → NoDup (modulesToPreload st')))
      as Hsame.
    { intros ->. split; [|done]. intros p. split; [by left|].
      intros [Hp|[Hscript _]]; done. }
    destruct (decide (baseExt file = ".html")) as [Hh|Hh].
    + rewrite optimizeFile_html by done.
      destruct (fs_read (files st) file) as [err|code];
        [intros [= <- <-]; by apply Hsame|].
      destruct (appendHTMLToHead code _) as [err|code'];
        [intros [= <- <-]; by apply Hsame|].
      destruct (fs_write (files st) file code') as [err|fs'];
        intros [= <- <-]; by apply Hsame.
    + rewrite optimizeFile_other by tauto. intros [= <- <-]. by apply Hsame.
Qed.

(** A suspended call is a script that was read and parsed, under
    [minifyJS]; it holds the code that was read. *)
Lemma optimizeFile_awaiting file dest st code resume st' :
  optimizeFile options file dest st = (Awaiting code resume, st') →
  (baseExt file = ".js" ∨ baseExt file = ".mjs") ∧
  resume = resume_minify file ∧
  fs_read (files st) file = inr code ∧
  minify_on options.
Proof.
  intros Hopt.
  pose proof Hopt as (evs & _ & _ & -> & _ & Hmin & Hs)%optimizeFile_effect.
  split; [done|]. split; [done|]. split; [|done].
  rewrite optimizeFile_script in Hopt by done.
  destruct (fs_read (files st) file) as [err|code0] eqn:Hread.
  { by rewrite (scan_imports_read_fails _ _ _ err) in Hopt. }
  destruct (parse code0) as [err|imports] eqn:Hparse.
  { by rewrite (scan_imports_parse_fails _ _ _ code0 err) in Hopt. }
  rewrite (scan_imports_ok _ _ _ code0 imports) in Hopt by done.
  destruct (options_minifyJS options) as [err|[[]|]]; simpl in Hopt;
    try discriminate Hopt.
  by injection Hopt as -> _.
Qed.

(** What the dispatch leaves: scripts and other files as they were, the set
    with the contributions of the enumerated scripts, and for every
    enumerated file the promise of a call of [optimizeFile] that saw the
    scripts as they were. *)
Lemma dispatch_all_state bd dest allFiles st promises st' :
  dispatch_all options bd dest allFiles st = (promises, st') →
  agree (files st) (files st') ∧
  (∀ p, p ∈ modulesToPreload st' ↔
        p ∈ modulesToPreload st ∨
        ∃ rel, rel ∈ allFiles ∧
               contributes (files st) (path_join [bd; rel]) p) ∧
  (NoDup (modulesToPreload st) → NoDup (modulesToPreload st')) ∧
  Forall2 (fun rel pa =>
             pa.1 = path_join [bd; rel] ∧
             ∃ st_f, agree (files st) (files st_f) ∧
                     fst (optimizeFile options pa.1 dest st_f) = pa.2)
          allFiles promises.
Proof.
  revert st promises st'.
  induction allFiles as [|rel rest IH]; intros st promises st'; simpl.
  { intros [= <- <-]. split; [apply agree_refl|]. split; [|by split].
    intros p. split; [by left|]. intros [Hp|(rel & Hin & _)]; [done|].
    by apply elem_of_nil in Hin. }
  set (file := path_join [bd; rel]).
  destruct (optimizeFile options file dest (record (Dispatch file) st))
    as [a st1] eqn:Hopt.
  pose proof (optimizeFile_agree _ _ _ _ _ Hopt) as Hag1.
  pose proof (optimizeFile_modules _ _ _ _ _ Hopt) as [Hset1 Hnd1].
  simpl in Hag1, Hset1, Hnd1.
  set (st2 := match a with
              | Settled r => record (Settle file (is_ok r)) st1
              | Awaiting _ _ => st1
              end).
  assert (files st2 = files st1 ∧ modulesToPreload st2 = modulesToPreload st1)
    as [Hf2 Hm2] by (by destruct a).
  destruct (dispatch_all options bd dest rest st2) as [ps st3] eqn:Hrest.
  apply IH in Hrest as (Hag & Hset & Hnd & Hall).
  rewrite Hf2 in Hag, Hset, Hall. rewrite Hm2 in Hset, Hnd.
  intros [= <- <-].
  split; [by eapply agree_trans|]. split; [|split].
  - intros p. rewrite Hset, Hset1. split.
    + intros [[Hp|Hp]|(rel' & Hin & Hc)]; [by left|right..].
      * exists rel. split; [by left|done].
      * exists rel'. split; [by right|].
        by apply (contributes_agree _ _ _ _ Hag1).
    + intros [Hp|(rel' & [->|Hin]%elem_of_cons & Hc)]; [by left; left|..].
      * left. by right.
      * right. exists rel'. split; [done|].
        by apply (contributes_agree _ _ _ _ Hag1).
  - auto.
  - constructor.
    + split; [done|]. exists (record (Dispatch file) st). simpl.
      split; [apply agree_refl|]. by rewrite Hopt.
    + eapply Forall2_impl; [exact Hall|].
      intros rel' pa (Hpa & st_f & Hag_f & Hopt_f). split; [done|].
      exists st_f. split; [by eapply agree_trans|done].
Qed.

End Dispatch.

(** ** The state after the answers of the service *)

Section Answers.
Context `{Host}.

Lemma minified_files_other tasks (fs : gmap string node) p :
  p ∉ map task_file tasks → minified_files tasks fs !! p = fs !! p.
Proof.
  induction tasks as [|t tasks IH]; intros Hp; [done|]. simpl in *.
  destruct (transform_minify t.1.2) as [err|js].
  - apply IH. set_solver.
  - rewrite lookup_insert_ne by set_solver. apply IH. set_solver.
Qed.

Lemma minified_files_insert tasks (fs : gmap string node) f v :
  f ∉ map task_file tasks →
  minified_files tasks (<[f := v]> fs) = <[f := v]> (minified_files tasks fs).
Proof.
  induction tasks as [|t tasks IH]; intros Hf; [done|]. simpl in *.
  rewrite IH by set_solver.
  destruct (transform_minify t.1.2) as [err|js]; [done|].
  apply insert_insert_ne. set_solver.
Qed.

Lemma minified_files_task tasks (fs : gmap string node) t :
  NoDup (map task_file tasks) → t ∈ tasks →
  minified_files tasks fs !! task_file t =
  match transform_minify t.1.2 with
  | inr js => Some (File js)
  | inl _ => fs !! task_file t
  end.
Proof.
  induction tasks as [|t' tasks IH]; intros Hnd Hin.
  { by apply elem_of_nil in Hin. }
  simpl in Hnd. apply NoDup_cons in Hnd as [Hfresh Hnd].
  apply elem_of_cons in Hin as [->|Hin]; simpl.
  - destruct (transform_minify t'.1.2) as [err|js].
    + by apply minified_files_other.
    + apply lookup_insert_eq.
  - assert (task_file t ≠ task_file t') as Hne.
    { intros Heq. apply Hfresh. rewrite <- Heq.
      apply list_elem_of_fmap. by exists t. }
    destruct (transform_minify t'.1.2) as [err|js]; [by apply IH|].
    rewrite lookup_insert_ne by done. by apply IH.
Qed.

(** The order of the answers does not matter to the files. *)
Lemma minified_files_perm tasks tasks' (fs : gmap string node) :
  tasks ≡ₚ tasks' → NoDup (map task_file tasks) →
  minified_files tasks fs = minified_files tasks' fs.
Proof.
  intros Hperm Hnd.
  assert (NoDup (map task_file tasks')) as Hnd' by (by rewrite <- Hperm).
  apply map_eq. intros p.
  destruct (decide (p ∈ map task_file tasks)) as [Hin|Hout].
  - apply list_elem_of_fmap in Hin as (t & -> & Ht).
    rewrite !minified_files_task; [done|done| |done|done].
    by rewrite <- Hperm.
  - rewrite !minified_files_other; [done| |done]. by rewrite <- Hperm.
Qed.

Lemma all_minified_perm tasks tasks' :
  tasks ≡ₚ tasks' → all_minified tasks = all_minified tasks'.
Proof.
  unfold all_minified. induction 1 as [|t l l' _ IH|t t' l|l l' l'' _ IH1 _ IH2];
    simpl; [done|by rewrite IH| |congruence].
  destruct (is_ok _), (is_ok _); done.
Qed.

Lemma resume_minify_rejected file err st :
  resume_minify file (inl err) st = (inl (trouble file err), st).
Proof. done. Qed.

Lemma resume_minify_written file js st code :
  files st !! file = Some (File code) →
  resume_minify file (inr js) st =
  (inr tt, mkState (<[file := File js]> (files st)) (modulesToPreload st)
                   (esbuildService st) (trace st ++ [WriteFile file])).
Proof.
  intros Hfile. unfold resume_minify, try_catch, finish_minify, bind, lift.
  unfold writeFileSync.
  rewrite fs_write_file by (by eapply write_error_file). done.
Qed.

Lemma task_live_insert (fs : gmap string node) file v tasks :
  file ∉ map task_file tasks →
  Forall (task_live fs) tasks →
  Forall (task_live (<[file := v]> fs)) tasks.
Proof.
  intros Hfresh Hlive. apply Forall_forall. intros t Ht.
  eapply Forall_forall in Hlive as [Hok Hlv]; [|exact Ht].
  split; [done|]. rewrite lookup_insert_ne; [done|].
  intros ->. apply Hfresh. apply list_elem_of_fmap. by exists t.
Qed.

(** The answers fulfil or reject the suspended calls one by one; what they
    leave does not depend on their order. *)
Lemma resume_all_state thrown tasks st thrown' st' :
  Forall (task_live (files st)) tasks →
  NoDup (map task_file tasks) →
  resume_all thrown tasks st = (thrown', st') →
  files st' = minified_files tasks (files st) ∧
  modulesToPreload st' = modulesToPreload st ∧
  esbuildService st' = esbuildService st ∧
  (thrown' = None ↔ thrown = None ∧ all_minified tasks = true) ∧
  (∀ err, thrown = Some err → thrown' = Some err) ∧
  (thrown = None → ∀ err, thrown' = Some err →
     ∃ t cause, t ∈ tasks ∧ err = trouble (task_file t) cause).
Proof.
  revert thrown st thrown' st'.
  induction tasks as [|[[file code] resume] tasks IH];
    intros thrown st thrown' st' Hlive Hnd.
  { simpl. intros [= <- <-]. do 3 (split; [done|]).
    split; [by split; [|intros [? _]]|]. split; [done|].
    intros -> err [=]. }
  apply Forall_cons in Hlive as [[[Hres _] Hfile] Hlive].
  unfold task_file in Hres, Hfile. simpl in Hres, Hfile. subst resume.
  simpl in Hnd. apply NoDup_cons in Hnd as [Hfresh Hnd].
  unfold task_file at 1 in Hfresh. simpl in Hfresh.
  change (all_minified ((file, code, resume_minify file) :: tasks))
    with (is_ok (transform_minify code) && all_minified tasks).
  change (minified_files ((file, code, resume_minify file) :: tasks) (files st))
    with (match transform_minify code with
          | inr js => <[file := File js]> (minified_files tasks (files st))
          | inl _ => minified_files tasks (files st)
          end).
  simpl. destruct (transform_minify code) as [cause|js].
  - rewrite resume_minify_rejected. simpl. destruct thrown as [err0|].
    + intros Hr. apply IH in Hr as (Hf & Hm & Hs & Hnone & Hsome & _);
        [|done..].
      do 3 (split; [done|]).
      split. { split; [intros [[=] _]%Hnone|intros [[=] _]]. }
      split; [done|]. by intros [=].
    + intros Hr. apply IH in Hr as (Hf & Hm & Hs & Hnone & Hsome & _);
        [|done..].
      do 3 (split; [done|]).
      split. { split; [by intros [[=] _]%Hnone|by intros [_ [=]]]. }
      split; [done|]. intros _ err Herr.
      rewrite (Hsome _ eq_refl) in Herr. injection Herr as <-.
      exists (file, code, resume_minify file), cause. split; [by left|done].
  - rewrite (resume_minify_written _ _ _ code) by done. simpl.
    assert (∀ st2,
      files st2 = <[file := File js]> (files st) →
      modulesToPreload st2 = modulesToPreload st →
      esbuildService st2 = esbuildService st →
      resume_all thrown tasks st2 = (thrown', st') →
      files st' = <[file := File js]> (minified_files tasks (files st)) ∧
      modulesToPreload st' = modulesToPreload st ∧
      esbuildService st' = esbuildService st ∧
      (thrown' = None ↔ thrown = None ∧ all_minified tasks = true) ∧
      (∀ err, thrown = Some err → thrown' = Some err) ∧
      (thrown = None → ∀ err, thrown' = Some err →
         ∃ t cause,
           t ∈ (file, code, resume_minify file) :: tasks ∧
           err = trouble (task_file t) cause)) as Hrest.
    { intros st2 Hf2 Hm2 Hs2 Hr.
      apply IH in Hr as (Hf & Hm & Hs & Hnone & Hsome & Hwrap); [|..|done].
      - rewrite Hf, Hf2, minified_files_insert by done.
        split; [done|]. split; [congruence|]. split; [congruence|].
        split; [done|]. split; [done|].
        intros Hn err Herr. destruct (Hwrap Hn err Herr) as (t & c & Ht & ->).
        exists t, c. split; [by right|done].
      - rewrite Hf2. by apply task_live_insert. }
    destruct thrown as [err0|]; intros Hr; eapply Hrest in Hr; done.
Qed.

End Answers.

(** ** The state after a pass *)

Section Result.
Context `{Host}.
Variable config : SnowpackConfig.
Variable options : option OptimizePluginOptions.

Lemma fs_read_inr (fs : gmap string node) p code :
  fs_read fs p = inr code ↔ fs !! p = Some (File code).
Proof.
  unfold fs_read. destruct (fs !! p) as [[c|]|]; split; congruence.
Qed.

Lemma resume_all_modules thrown tasks st thrown' st' :
  Forall task_ok tasks →
  resume_all thrown tasks st = (thrown', st') →
  modulesToPreload st' = modulesToPreload st.
Proof.
  intros Htasks. revert thrown st.
  induction Htasks as [|[[file code] resume] tasks [Hres _] _ IH];
    intros thrown st; simpl; [by intros [= _ <-]|].
  unfold task_file in Hres. simpl in Hres. subst resume.
  destruct (resume_minify file (transform_minify code) st) as [r st1] eqn:Hr.
  apply resume_minify_effect in Hr as (_ & _ & _ & Hm).
  destruct thrown as [err0|], r as [err|[]]; intros Hrest;
    apply IH in Hrest; by rewrite Hrest.
Qed.

Lemma writeModulePreloadFile_unfold dest st :
  writeModulePreloadFile dest st =
  match fs_write (files st) dest
          (preload_code dest (js_sort localeCompare (modulesToPreload st))) with
  | inl err => (inl err, record ReadSet st)
  | inr fs' =>
      (inr tt, mkState fs' (modulesToPreload st) (esbuildService st)
                       ((trace st ++ [ReadSet]) ++ [WriteFile dest]))
  end.
Proof.
  unfold writeModulePreloadFile, bind, log, writeFileSync. simpl.
  by destruct (fs_write _ _ _).
Qed.

(** The suspended calls after the dispatch: their files hold the code that
    was read, and they are among the dispatched paths, in order. *)
Lemma dispatch_all_tasks bd dest allFiles st promises st' :
  dispatch_all options bd dest allFiles st = (promises, st') →
  Forall (task_live (files st')) (awaiting promises) ∧
  map task_file (awaiting promises) `sublist_of` joined bd allFiles ∧
  map fst promises = joined bd allFiles.
Proof.
  intros (Hag & _ & _ & Hall)%dispatch_all_state.
  induction Hall as [|rel [f a] allFiles promises [Hf (st_f & Hag_f & Hopt)] _ IH];
    [done|].
  simpl in Hf, Hopt. subst f. destruct IH as (Hlive & Hsub & Hfst).
  destruct a as [r|code resume]; simpl.
  - split; [done|]. split; [by constructor|]. by rewrite Hfst.
  - destruct (optimizeFile options (path_join [bd; rel]) dest st_f)
      as [a st_f'] eqn:Hopt'.
    simpl in Hopt. subst a.
    apply optimizeFile_awaiting in Hopt' as (Hs & -> & Hread & _).
    split; [|split; [by constructor|by rewrite Hfst]].
    constructor; [|done]. split; [by split|].
    unfold task_file. simpl.
    rewrite Hag, <- Hag_f by auto using script_not_html.
    by apply fs_read_inr.
Qed.

Lemma first_rejection_Some promises err :
  first_rejection promises = Some err →
  ∃ f, (f, Settled (inl err)) ∈ promises.
Proof.
  induction promises as [|[f [[e|[]]|code resume]] promises IH]; simpl;
    [done| | |].
  - intros [= ->]. exists f. by left.
  - intros (f' & Hin)%IH. exists f'. by right.
  - intros (f' & Hin)%IH. exists f'. by right.
Qed.

Lemma first_rejection_None promises f err :
  (f, Settled (inl err)) ∈ promises → first_rejection promises ≠ None.
Proof.
  induction promises as [|[f' [[e|[]]|code resume]] promises IH]; simpl.
  - by intros ?%elem_of_nil.
  - done.
  - intros [[=]|Hin]%elem_of_cons. by apply IH.
  - intros [[=]|Hin]%elem_of_cons. by apply IH.
Qed.

(** What a pass leaves, told without the schedule. *)
Lemma optimize_state bd schedule st0 promises st3 :
  let allFiles := scan config options bd (files st0) in
  let dest := preloadModuleFile config bd in
  let run := optimize config options bd schedule st0 in
  let fs4 := minified_files (awaiting promises) (files st3) in
  let code := preload_code dest
                (js_sort localeCompare (modulesToPreload st3)) in
  NoDup (joined bd allFiles) →
  dispatch_all options bd dest allFiles
    (new_Set (record StartService (set_service Running st0)))
    = (promises, st3) →
  modulesToPreload (snd run) = modulesToPreload st3 ∧
  match first_rejection promises, all_minified (awaiting promises),
        fs_write fs4 dest code with
  | None, true, inr fs5 =>
      fst run = inr tt ∧ files (snd run) = fs5 ∧
      esbuildService (snd run) = Stopped
  | None, true, inl err =>
      fst run = inl err ∧ files (snd run) = fs4 ∧
      esbuildService (snd run) = Running
  | _, _, _ =>
      is_ok (fst run) = false ∧ files (snd run) = fs4 ∧
      esbuildService (snd run) = Running
  end.
Proof.
  intros allFiles dest run fs4 code Hnd Hd.
  pose proof (dispatch_all_tasks _ _ _ _ _ _ Hd) as (Hlive & Hsub & _).
  pose proof Hd as (evs & [_ Hs3 _] & _)%dispatch_all_spec.
  simpl in Hs3.
  subst run. unfold optimize. cbv zeta. fold dest.
  change (files (record StartService (set_service Running st0)))
    with (files st0).
  fold allFiles. rewrite Hd.
  set (answers := arrange schedule (awaiting promises)).
  assert (answers ≡ₚ awaiting promises) as Hperm by apply arrange_perm.
  assert (NoDup (map task_file (awaiting promises))) as Hnd_t.
  { eapply sublist_NoDup; eauto. }
  assert (∀ thrown st thrown' st',
    files st = files st3 → modulesToPreload st = modulesToPreload st3 →
    esbuildService st = Running →
    resume_all thrown answers st = (thrown', st') →
    files st' = fs4 ∧ modulesToPreload st' = modulesToPreload st3 ∧
    esbuildService st' = Running ∧
    (thrown' = None ↔ thrown = None ∧ all_minified (awaiting promises) = true))
    as Hresume.
  { intros thrown st thrown' st' Hf Hm Hs Hr.
    apply resume_all_state in Hr as (Hf' & Hm' & Hs' & Hnone & _).
    - rewrite Hf', Hf, Hm', Hm, Hs', Hs.
      rewrite (all_minified_perm _ _ Hperm) in Hnone.
      split; [|done]. unfold fs4. apply minified_files_perm; [done|].
      by rewrite Hperm.
    - rewrite Hf, Hperm. done.
    - by rewrite Hperm. }
  destruct (first_rejection promises) as [err|].
  - destruct (resume_all (Some err) answers (record (PassThrow err) st3))
      as [thrown' st4] eqn:Hr.
    apply (Hresume _ (record (PassThrow err) st3)) in Hr
      as (Hf & Hm & Hs & _); [|done..]. simpl.
    split; [done|]. done.
  - destruct (resume_all None answers st3) as [thrown' st4] eqn:Hr.
    apply (Hresume _ st3) in Hr as (Hf & Hm & Hs & Hnone); [|done..].
    destruct thrown' as [err|].
    + simpl. split; [done|].
      destruct (all_minified (awaiting promises)); [|done].
      destruct Hnone as [_ Hnone]. by specialize (Hnone (conj eq_refl eq_refl)).
    + destruct Hnone as [[_ ->] _]; [done|].
      rewrite writeModulePreloadFile_unfold, Hf, Hm. fold code.
      destruct (fs_write fs4 dest code) as [err|fs5]; simpl; done.
Qed.

End Result.

(** ** What a pass changes *)

(** X2: a pass changes the aggregator, markup files that it dispatched and,
    under [minifyJS], scripts that it dispatched; every other path holds
    after the pass what it held before.  Stylesheets and files with another
    extension are among the paths that are never changed. *)
Theorem X2_pass_changes_only_its_targets `{Host}
    (config : SnowpackConfig) (options : option OptimizePluginOptions)
    (buildDirectory : string) (schedule : list nat) (st0 : State)
    (p : string) :
  let run := optimize config options buildDirectory schedule st0 in
  let allFiles := scan config options buildDirectory (files st0) in
  files (snd run) !! p ≠ files st0 !! p →
  p = preloadModuleFile config buildDirectory ∨
  (p ∈ joined buildDirectory allFiles ∧
   (baseExt p = ".html" ∨
    ((baseExt p = ".js" ∨ baseExt p = ".mjs") ∧
     ∃ o, options = Some o ∧ truthy (minifyJS o) = true))).
Proof.
  intros run allFiles Hchanged.
  destruct (optimize_shape config options buildDirectory schedule st0)
    as (evs_d & evs_r & tail & _ & _ & _ & _ & Hdisp & _ & Hwr_d & Hwr_r
        & Hmin & Hfiles).
  fold run in Hfiles. fold allFiles in Hdisp. rewrite Hdisp in Hwr_d, Hwr_r.
  destruct (decide (p = preloadModuleFile config buildDirectory)) as [|Hdest];
    [by left|right].
  destruct (decide (p ∈ written evs_d)) as [Hd|Hd].
  { apply Hwr_d in Hd as [Hin Hh]. auto. }
  destruct (decide (p ∈ written evs_r)) as [Hr|Hr].
  { pose proof (Hwr_r _ Hr) as [Hin Hs]. split; [done|right].
    split; [done|]. apply Hmin. intros ->. by apply elem_of_nil in Hr. }
  exfalso. apply Hchanged. by apply Hfiles.
Qed.

Lemma X2_pass_changes_only_its_targets_witness :
  let st0 := Sample.initial [("/out/index.html", File "<head></head>");
                             ("/out/site.css", File "a{}")] in
  "/out/index.html" = "/out/__snowpack__/module-preload.mjs" ∨
  ("/out/index.html" ∈ ["/out/index.html"; "/out/site.css"] ∧
   (".html" = ".html" ∨
    ((".html" = ".js" ∨ ".html" = ".mjs") ∧
     ∃ o, Sample.options false = Some o ∧ truthy (minifyJS o) = true))).
Proof.
  intros st0.
  apply (X2_pass_changes_only_its_targets (H := Sample.host) Sample.config
           (Sample.options false) "/out" [] st0 "/out/index.html").
  by vm_compute.
Defined.

(** ** The set and the aggregator *)

Section Aggregate.
Context `{Host}.
Variable config : SnowpackConfig.
Variable options : option OptimizePluginOptions.

Lemma optimize_modules bd schedule st0 promises st3 :
  dispatch_all options bd (preloadModuleFile config bd)
    (scan config options bd (files st0))
    (new_Set (record StartService (set_service Running st0)))
    = (promises, st3) →
  modulesToPreload (snd (optimize config options bd schedule st0))
    = modulesToPreload st3.
Proof.
  intros Hd. unfold optimize. cbv zeta.
  change (files (record StartService (set_service Running st0)))
    with (files st0).
  rewrite Hd.
  apply dispatch_all_spec in Hd as (_ & _ & _ & _ & _ & _ & _ & Htasks & _).
  set (answers := arrange schedule (awaiting promises)).
  assert (Forall task_ok answers) as Hans.
  { unfold answers. by rewrite arrange_perm. }
  destruct (first_rejection promises) as [err|].
  - destruct (resume_all (Some err) answers (record (PassThrow err) st3))
      as [thrown' st4] eqn:Hr.
    apply resume_all_modules in Hr; [|done]. simpl. by rewrite Hr.
  - destruct (resume_all None answers st3) as [[err|] st4] eqn:Hr;
      (apply resume_all_modules in Hr; [|done]); [done|].
    rewrite writeModulePreloadFile_unfold.
    by destruct (fs_write _ _ _).
Qed.

End Aggregate.

(** ** Scripts without [minifyJS] *)

(** C9: with [minifyJS] false or unset no script is written by the pass:
    every enumerated file is dispatched, and every [.js] and [.mjs] path
    other than the aggregator holds after the pass what it held before, and
    the pass logs no write to it.  The scan of the imports still runs on
    every script: one call changes no file and adds the static specifiers to
    the set, and after the pass the set holds exactly the resolved static
    specifiers of the enumerated scripts. *)
Theorem C9_scripts_untouched_without_minifyJS `{Host}
    (config : SnowpackConfig) (options : option OptimizePluginOptions)
    (buildDirectory : string) (schedule : list nat) (st0 : State) :
  (∀ o, options = Some o → truthy (minifyJS o) = false) →
  let run := optimize config options buildDirectory schedule st0 in
  let allFiles := scan config options buildDirectory (files st0) in
  (∃ evs, trace (snd run) = trace st0 ++ evs ∧
     dispatched evs = joined buildDirectory allFiles ∧
     ∀ p, baseExt p = ".js" ∨ baseExt p = ".mjs" →
          p ≠ preloadModuleFile config buildDirectory →
          files (snd run) !! p = files st0 !! p ∧ WriteFile p ∉ evs) ∧
  (∀ file dest st code imports,
     baseExt file = ".js" ∨ baseExt file = ".mjs" →
     fs_read (files st) file = inr code →
     parse code = inr imports →
     let st' := snd (optimizeFile options file dest st) in
     files st' = files st ∧ trace st' = trace st ∧
     ∀ p, p ∈ modulesToPreload st' ↔
          p ∈ modulesToPreload st ∨
          ∃ imp, imp ∈ imports ∧ imp_d imp = -1 ∧
                 p = path_resolve (path_dirname file)
                       (js_substring code (imp_s imp) (imp_e imp))) ∧
  (∀ p, p ∈ modulesToPreload (snd run) ↔
        ∃ rel code imports imp,
          rel ∈ allFiles ∧
          (baseExt (path_join [buildDirectory; rel]) = ".js" ∨
           baseExt (path_join [buildDirectory; rel]) = ".mjs") ∧
          files st0 !! path_join [buildDirectory; rel] = Some (File code) ∧
          parse code = inr imports ∧ imp ∈ imports ∧ imp_d imp = -1 ∧
          p = path_resolve (path_dirname (path_join [buildDirectory; rel]))
                (js_substring code (imp_s imp) (imp_e imp))).
Proof.
  intros Hoff run allFiles. split; [|split].
  - destruct (optimize_shape config options buildDirectory schedule st0)
      as (evs_d & evs_r & tail & Htrace & Hend & Htr_d & Hl_r & Hdisp & Hsett
          & Hwr_d & Hwr_r & Hmin & Hfiles).
    fold run in Htrace, Hend, Hfiles.
    assert (evs_r = []) as ->.
    { destruct evs_r as [|ev evs_r]; [done|].
      destruct Hmin as (o & Ho & Hon); [done|].
      rewrite (Hoff o Ho) in Hon. discriminate. }
    exists (StartService :: evs_d ++ tail). split; [done|].
    split.
    { change (dispatched (StartService :: ?l)) with (dispatched l).
      rewrite dispatched_app, Hdisp.
      assert (dispatched tail = []) as ->; [|by rewrite app_nil_r].
      by destruct Hend. }
    intros p Hp Hdest.
    assert (p ∉ written evs_d) as Hnw.
    { intros [_ Hhtml]%Hwr_d. by apply html_not_script in Hhtml. }
    split. { apply Hfiles; [done| |done]. set_solver. }
    intros [[=]|[Hin|Hin]%elem_of_app]%elem_of_cons.
    { by apply elem_of_written in Hin. }
    destruct Hend as [err|err Hthrow|err Hnofail Htr_r|Hnofail Htr_r];
      simpl in Hin; try not_in_list Hin.
    apply elem_of_cons in Hin as [[=]|Hin].
    apply elem_of_cons in Hin as [[= ->]|Hin]; [done|]. not_in_list Hin.
  - intros file dest st code imports Hext Hread Hparse st'.
    assert (st' = with_modules
                    (add_all (static_paths file code imports)
                             (modulesToPreload st)) st) as ->.
    { subst st'. rewrite optimizeFile_script by done.
      rewrite (scan_imports_ok _ _ _ code imports) by done.
      unfold options_minifyJS. destruct options as [o|]; [|done].
      by rewrite (Hoff o eq_refl). }
    split; [done|]. split; [done|].
    intros p. simpl. by rewrite elem_of_add_all, elem_of_static_paths.
  - destruct (dispatch_all options buildDirectory
                (preloadModuleFile config buildDirectory) allFiles
                (new_Set (record StartService (set_service Running st0))))
      as [promises st3] eqn:Hd.
    subst run. rewrite (optimize_modules _ _ _ _ _ promises st3) by done.
    apply dispatch_all_state in Hd as (_ & Hset & _).
    simpl in Hset. intros p. rewrite Hset. unfold contributes. split.
    + intros [Hp|(rel & Hrel & Hs & code & imports & imp & Hread & Hrest)];
        [by apply elem_of_nil in Hp|].
      exists rel, code, imports, imp. apply fs_read_inr in Hread. tauto.
    + intros (rel & code & imports & imp & Hrel & Hs & Hfile & Hrest).
      right. exists rel. split; [done|]. split; [done|].
      exists code, imports, imp. apply fs_read_inr in Hfile. tauto.
Qed.

Lemma C9_scripts_untouched_without_minifyJS_witness :
  let st0 := Sample.initial [("/out/index.html", File "<head></head>");
                             ("/out/main.js", File Sample.main_js);
                             ("/out/util.js", File Sample.big_js)] in
  let run := optimize (H := Sample.host) Sample.config (Sample.options false)
                      "/out" [] st0 in
  files (snd run) !! "/out/main.js" = Some (File Sample.main_js) ∧
  files (snd run) !! "/out/util.js" = Some (File Sample.big_js) ∧
  "/out/util.js" ∈ modulesToPreload (snd run).
Proof.
  intros st0 run.
  destruct (C9_scripts_untouched_without_minifyJS (H := Sample.host)
              Sample.config (Sample.options false) "/out" [] st0)
    as ((evs & _ & _ & Hkeep) & _ & Hset).
  - intros o [= <-]. reflexivity.
  - split; [|split].
    + refine (proj1 (Hkeep "/out/main.js" _ _));
        [left; reflexivity|discriminate].
    + refine (proj1 (Hkeep "/out/util.js" _ _));
        [left; reflexivity|discriminate].
    + apply Hset.
      exists "main.js", Sample.main_js,
             [mkImport 8 17 (-1); mkImport 27 38 20], (mkImport 8 17 (-1)).
      vm_compute. repeat split; [by right; left|by left|by left].
Defined.

(** X3: the set at the end of a pass holds exactly the resolved specifiers
    of the static imports of the enumerated scripts, read as they were
    before the pass, each path once; nothing of an earlier set is left in
    it, and neither a failure nor the minifier changes it. *)
Theorem X3_set_is_the_static_imports_of_the_scripts `{Host}
    (config : SnowpackConfig) (options : option OptimizePluginOptions)
    (buildDirectory : string) (schedule : list nat) (st0 : State) :
  let run := optimize config options buildDirectory schedule st0 in
  let allFiles := scan config options buildDirectory (files st0) in
  NoDup (modulesToPreload (snd run)) ∧
  ∀ p, p ∈ modulesToPreload (snd run) ↔
       ∃ rel, rel ∈ allFiles ∧
              contributes (files st0) (path_join [buildDirectory; rel]) p.
Proof.
  intros run allFiles.
  destruct (dispatch_all options buildDirectory
              (preloadModuleFile config buildDirectory) allFiles
              (new_Set (record StartService (set_service Running st0))))
    as [promises st3] eqn:Hd.
  subst run. rewrite (optimize_modules _ _ _ _ _ promises st3) by done.
  apply dispatch_all_state in Hd as (_ & Hset & Hnd & _).
  simpl in Hset, Hnd. split; [apply Hnd; constructor|].
  intros p. rewrite Hset. split; [|by right].
  intros [Hp|Hp]; [by apply elem_of_nil in Hp|done].
Qed.

(** X4: when the pass returns, the aggregator holds the import statements
    of the set of that pass, whatever it held before. *)
Theorem X4_aggregator_holds_the_set_on_return `{Host}
    (config : SnowpackConfig) (options : option OptimizePluginOptions)
    (buildDirectory : string) (schedule : list nat) (st0 : State) :
  let run := optimize config options buildDirectory schedule st0 in
  let dest := preloadModuleFile config buildDirectory in
  fst run = inr tt →
  files (snd run) !! dest =
    Some (File (preload_code dest
                  (js_sort localeCompare (modulesToPreload (snd run))))).
Proof.
  intros run dest. subst run. unfold optimize. cbv zeta. fold dest.
  change (files (record StartService (set_service Running st0)))
    with (files st0).
  destruct (dispatch_all _ _ _ _ _) as [promises st3].
  destruct (first_rejection promises) as [err|]; [done|].
  destruct (resume_all None _ st3) as [[err|] st4]; [done|].
  rewrite writeModulePreloadFile_unfold.
  destruct (fs_write (files st4) dest _) as [err|fs5] eqn:Hw; [done|].
  intros _. simpl. apply fs_write_inv in Hw as ->. apply lookup_insert_eq.
Qed.

Lemma X4_aggregator_holds_the_set_on_return_witness :
  let st0 := Sample.initial
               [("/out/main.js", File Sample.main_js);
                ("/out/__snowpack__", Dir);
                ("/out/__snowpack__/module-preload.mjs", File "stale")] in
  files (snd (optimize (H := Sample.host) Sample.config (Sample.options false)
                       "/out" [] st0))
    !! "/out/__snowpack__/module-preload.mjs" =
  Some (File "import '../util.js';").
Proof.
  intros st0.
  apply (X4_aggregator_holds_the_set_on_return (H := Sample.host)
           Sample.config (Sample.options false) "/out" [] st0).
  by vm_compute.
Defined.

Lemma Forall2_elem_of_l {A B} (P : A → B → Prop) l k x :
  Forall2 P l k → x ∈ l → ∃ y, y ∈ k ∧ P x y.
Proof.
  induction 1 as [|a b l k Hab _ IH]; [by intros ?%elem_of_nil|].
  intros [->|Hin]%elem_of_cons.
  - exists b. split; [by left|done].
  - destruct (IH Hin) as (y & Hy & Hxy). exists y. split; [by right|done].
Qed.

Lemma Forall2_elem_of_r {A B} (P : A → B → Prop) l k y :
  Forall2 P l k → y ∈ k → ∃ x, x ∈ l ∧ P x y.
Proof.
  induction 1 as [|a b l k Hab _ IH]; [by intros ?%elem_of_nil|].
  intros [->|Hin]%elem_of_cons.
  - exists a. split; [by left|done].
  - destruct (IH Hin) as (x & Hx & Hxy). exists x. split; [by right|done].
Qed.

Lemma elem_of_awaiting promises f code resume :
  (f, Awaiting code resume) ∈ promises → (f, code, resume) ∈ awaiting promises.
Proof.
  induction promises as [|[f' [r|code' resume']] promises IH]; simpl.
  - by intros ?%elem_of_nil.
  - intros [[=]|Hin]%elem_of_cons. by apply IH.
  - intros [[= -> -> ->]|Hin]%elem_of_cons; [by left|]. right. by apply IH.
Qed.

(** X5: when the pass throws, the aggregator is left as it was (absent, or
    stale from an earlier pass), provided the scan did not enumerate it. *)
Theorem X5_failed_pass_leaves_the_aggregator `{Host}
    (config : SnowpackConfig) (options : option OptimizePluginOptions)
    (buildDirectory : string) (schedule : list nat) (st0 : State)
    (err : JsError) :
  let run := optimize config options buildDirectory schedule st0 in
  let dest := preloadModuleFile config buildDirectory in
  let allFiles := scan config options buildDirectory (files st0) in
  fst run = inl err →
  dest ∉ joined buildDirectory allFiles →
  files (snd run) !! dest = files st0 !! dest.
Proof.
  intros run dest allFiles. subst run. unfold optimize. cbv zeta. fold dest.
  change (files (record StartService (set_service Running st0)))
    with (files st0).
  fold allFiles.
  destruct (dispatch_all _ _ _ _ _) as [promises st3] eqn:Hd.
  apply dispatch_all_spec in Hd
    as (evs_d & [_ _ Hf_d] & _ & Hdisp & Hsett & _ & Hwr_d & Htasks & _).
  simpl in Hf_d. intros Herr Hdest.
  assert (files st3 !! dest = files st0 !! dest) as Hf3.
  { apply Hf_d. intros [Hin _]%Hwr_d. by rewrite Hdisp in Hin. }
  set (answers := arrange schedule (awaiting promises)) in *.
  assert (∀ thrown st thrown' st',
            resume_all thrown answers st = (thrown', st') →
            files st' !! dest = files st !! dest) as Hresume.
  { intros thrown st thrown' st' Hr.
    apply resume_all_spec in Hr as (evs_r & [_ _ Hf] & _ & _ & Hw & _).
    - apply Hf. intros Hin%Hw. apply Hdest.
      rewrite <- Hdisp, <- Hsett. apply elem_of_app. right.
      unfold answers in Hin. by rewrite arrange_perm in Hin.
    - unfold answers. by rewrite arrange_perm. }
  destruct (first_rejection promises) as [err0|].
  - destruct (resume_all (Some err0) answers (record (PassThrow err0) st3))
      as [thrown' st4] eqn:Hr.
    apply Hresume in Hr. simpl. by rewrite Hr.
  - destruct (resume_all None answers st3) as [[err0|] st4] eqn:Hr;
      apply Hresume in Hr; simpl; [by rewrite Hr|].
    rewrite writeModulePreloadFile_unfold in Herr |- *.
    destruct (fs_write (files st4) dest _) as [err0|fs5]; [|done].
    simpl. by rewrite Hr.
Qed.

Lemma X5_failed_pass_leaves_the_aggregator_witness :
  let st0 := Sample.initial
               [("/out/app.js", File Sample.broken_js);
                ("/out/__snowpack__", Dir);
                ("/out/__snowpack__/module-preload.mjs", File "stale")] in
  files (snd (optimize (H := Sample.host) Sample.config (Sample.options false)
                       "/out" [] st0))
    !! "/out/__snowpack__/module-preload.mjs" = Some (File "stale").
Proof.
  intros st0.
  apply (X5_failed_pass_leaves_the_aggregator (H := Sample.host)
           Sample.config (Sample.options false) "/out" [] st0
           (trouble "/out/app.js" (new_Error "Parse error @:1:9"))).
  - by vm_compute.
  - vm_compute. set_solver.
Defined.

(** X6: under [minifyJS], a script that the scan enumerates and that is
    read and parsed ends the pass holding the code that the minifier
    returned for its content; when the minifier rejects it, the script
    keeps its content.  This holds for every order of the answers and also
    when the pass throws because of another file. *)
Theorem X6_scripts_hold_the_minified_code `{Host}
    (config : SnowpackConfig) (options : option OptimizePluginOptions)
    (buildDirectory : string) (schedule : list nat) (st0 : State)
    (o : OptimizePluginOptions) (rel code : string)
    (imports : list ImportSpecifier) :
  let file := path_join [buildDirectory; rel] in
  let dest := preloadModuleFile config buildDirectory in
  let allFiles := scan config options buildDirectory (files st0) in
  options = Some o → truthy (minifyJS o) = true →
  rel ∈ allFiles →
  (∀ a b, a ∈ allFiles → b ∈ allFiles →
          path_join [buildDirectory; a] = path_join [buildDirectory; b] →
          a = b) →
  baseExt file = ".js" ∨ baseExt file = ".mjs" →
  file ≠ dest →
  files st0 !! file = Some (File code) →
  parse code = inr imports →
  files (snd (optimize config options buildDirectory schedule st0)) !! file =
    Some (File (match transform_minify code with
                | inr js => js
                | inl _ => code
                end)).
Proof.
  intros file dest allFiles Ho Hon Hin Hinj Hs Hdest Hfile Hparse.
  assert (NoDup (joined buildDirectory allFiles)) as Hnd.
  { apply joined_NoDup; [apply scan_NoDup|done]. }
  destruct (dispatch_all options buildDirectory dest allFiles
              (new_Set (record StartService (set_service Running st0))))
    as [promises st3] eqn:Hd.
  pose proof (dispatch_all_state _ _ _ _ _ _ _ Hd) as (Hag & _ & _ & Hall).
  pose proof (dispatch_all_tasks _ _ _ _ _ _ _ Hd) as (_ & Hsub & _).
  simpl in Hag.
  destruct (Forall2_elem_of_l _ _ _ _ Hall Hin)
    as ([f a] & Hpa & Hf & st_f & Hag_f & Hopt).
  simpl in Hf, Hopt, Hag_f. subst f. fold file in Hpa, Hopt.
  assert (a = Awaiting code (resume_minify file)) as ->.
  { rewrite <- Hopt. rewrite optimizeFile_script by done.
    rewrite (scan_imports_ok _ _ _ code imports); [|  |done].
    - unfold options_minifyJS. rewrite Ho. simpl. by rewrite Hon.
    - rewrite (fs_read_agree (files st0)) by auto using script_not_html.
      by apply fs_read_inr. }
  apply elem_of_awaiting in Hpa.
  assert (minified_files (awaiting promises) (files st3) !! file =
          Some (File (match transform_minify code with
                      | inr js => js
                      | inl _ => code
                      end))) as Hf4.
  { assert (NoDup (map task_file (awaiting promises))) as Hnd_t
      by (eapply sublist_NoDup; eauto).
    rewrite (minified_files_task _ _ (file, code, resume_minify file))
      by done.
    simpl. destruct (transform_minify code) as [err|js]; [|done].
    unfold task_file. simpl.
    rewrite Hag by auto using script_not_html. done. }
  pose proof (optimize_state config options buildDirectory schedule st0
                promises st3 Hnd Hd) as [_ Hstate].
  fold dest in Hstate.
  destruct (first_rejection promises), (all_minified (awaiting promises));
    try (destruct Hstate as (_ & -> & _); exact Hf4).
  destruct (fs_write _ dest _) as [err|fs5] eqn:Hw;
    destruct Hstate as (_ & -> & _); [exact Hf4|].
  apply fs_write_inv in Hw as ->. by rewrite lookup_insert_ne.
Qed.

Lemma X6_scripts_hold_the_minified_code_witness :
  let st0 := Sample.initial [("/out/a.js", File Sample.invalid_js);
                             ("/out/b.js", File Sample.big_js)] in
  let run := optimize (H := Sample.host) Sample.config (Sample.options true)
                      "/out" [1%nat] st0 in
  files (snd run) !! "/out/b.js" = Some (File "export const answer=42;").
Proof.
  intros st0 run.
  apply (X6_scripts_hold_the_minified_code (H := Sample.host) Sample.config
           (Sample.options true) "/out" [1%nat] st0
           {| exclude := None; minifyCSS := None; minifyHTML := None;
              minifyJS := Some true |} "b.js" Sample.big_js []).
  - reflexivity.
  - reflexivity.
  - vm_compute. set_solver.
  - intros a b Ha Hb.
    change (a ∈ ["a.js"; "b.js"]) in Ha. change (b ∈ ["a.js"; "b.js"]) in Hb.
    set_unfold in Ha; set_unfold in Hb.
    destruct Ha as [->|[->|[]]], Hb as [->|[->|[]]]; vm_compute; congruence.
  - left. reflexivity.
  - discriminate.
  - reflexivity.
  - reflexivity.
Defined.

(** ** The order of the answers *)

(** X7: the order in which the minifier answers does not show in what a
    pass leaves: for any two schedules the files, the set and the service
    end up the same, and the pass returns for both or throws for both (the
    error that is thrown may differ). *)
Theorem X7_result_does_not_depend_on_the_schedule `{Host}
    (config : SnowpackConfig) (options : option OptimizePluginOptions)
    (buildDirectory : string) (schedule1 schedule2 : list nat) (st0 : State) :
  let allFiles := scan config options buildDirectory (files st0) in
  let run1 := optimize config options buildDirectory schedule1 st0 in
  let run2 := optimize config options buildDirectory schedule2 st0 in
  (∀ a b, a ∈ allFiles → b ∈ allFiles →
          path_join [buildDirectory; a] = path_join [buildDirectory; b] →
          a = b) →
  files (snd run1) = files (snd run2) ∧
  modulesToPreload (snd run1) = modulesToPreload (snd run2) ∧
  esbuildService (snd run1) = esbuildService (snd run2) ∧
  is_ok (fst run1) = is_ok (fst run2).
Proof.
  intros allFiles run1 run2 Hinj.
  assert (NoDup (joined buildDirectory allFiles)) as Hnd.
  { apply joined_NoDup; [apply scan_NoDup|done]. }
  destruct (dispatch_all options buildDirectory
              (preloadModuleFile config buildDirectory) allFiles
              (new_Set (record StartService (set_service Running st0))))
    as [promises st3] eqn:Hd.
  pose proof (optimize_state config options buildDirectory schedule1 st0
                promises st3 Hnd Hd) as [Hm1 H1].
  pose proof (optimize_state config options buildDirectory schedule2 st0
                promises st3 Hnd Hd) as [Hm2 H2].
  fold run1 in Hm1, H1. fold run2 in Hm2, H2.
  split; [|split; [congruence|]].
  - destruct (first_rejection promises), (all_minified (awaiting promises));
      try (destruct H1 as (_ & -> & _), H2 as (_ & -> & _); done).
    destruct (fs_write _ _ _);
      destruct H1 as (_ & -> & _), H2 as (_ & -> & _); done.
  - destruct (first_rejection promises), (all_minified (awaiting promises));
      try (destruct H1 as (-> & _ & ->), H2 as (-> & _ & ->); done).
    destruct (fs_write _ _ _);
      destruct H1 as (-> & _ & ->), H2 as (-> & _ & ->); done.
Qed.

Lemma X7_result_does_not_depend_on_the_schedule_witness :
  let st0 := Sample.initial [("/out/a.js", File Sample.invalid_js);
                             ("/out/b.js", File Sample.big_js)] in
  files (snd (optimize (H := Sample.host) Sample.config (Sample.options true)
                       "/out" [] st0)) =
  files (snd (optimize (H := Sample.host) Sample.config (Sample.options true)
                       "/out" [1%nat] st0)).
Proof.
  intros st0.
  refine (proj1 (X7_result_does_not_depend_on_the_schedule (H := Sample.host)
                   Sample.config (Sample.options true) "/out" [] [1%nat] st0
                   _)).
  intros a b Ha Hb.
  change (a ∈ ["a.js"; "b.js"]) in Ha. change (b ∈ ["a.js"; "b.js"]) in Hb.
  set_unfold in Ha; set_unfold in Hb.
  destruct Ha as [->|[->|[]]], Hb as [->|[->|[]]]; vm_compute; congruence.
Defined.

(** The two schedules of the witness do give the two orders. *)
Example schedules_differ :
  let st0 := Sample.initial [("/out/a.js", File Sample.invalid_js);
                             ("/out/b.js", File Sample.big_js)] in
  trace (snd (optimize (H := Sample.host) Sample.config (Sample.options true)
                       "/out" [1%nat] st0)) =
  [StartService; Dispatch "/out/a.js"; Dispatch "/out/b.js";
   WriteFile "/out/b.js"; Settle "/out/b.js" true;
   Settle "/out/a.js" false;
   PassThrow (trouble "/out/a.js" (new_Error "Transform failed with 1 error"))].
Proof. by vm_compute. Qed.

(** ** The error of a pass *)

Lemma awaiting_elem_of promises f code resume :
  (f, code, resume) ∈ awaiting promises → (f, Awaiting code resume) ∈ promises.
Proof.
  induction promises as [|[f' [r|code' resume']] promises IH]; simpl.
  - by intros ?%elem_of_nil.
  - intros Hin. right. by apply IH.
  - intros [[= -> -> ->]|Hin]%elem_of_cons; [by left|]. right. by apply IH.
Qed.

Section Rejections.
Context `{Host}.
Variable options : option OptimizePluginOptions.

(** The promise of a call depends on the file of the call only. *)
Lemma optimizeFile_local file dest st st' :
  files st !! file = files st' !! file →
  fst (optimizeFile options file dest st) =
  fst (optimizeFile options file dest st').
Proof.
  intros Hsame.
  assert (fs_read (files st) file = fs_read (files st') file) as Hread.
  { unfold fs_read. by rewrite Hsame. }
  destruct (decide (baseExt file = ".js" ∨ baseExt file = ".mjs")) as [Hs|Hs].
  - rewrite !optimizeFile_script by done.
    destruct (fs_read (files st') file) as [err|code] eqn:Hread'.
    { rewrite (scan_imports_read_fails _ _ st err) by done.
      by rewrite (scan_imports_read_fails _ _ st' err) by done. }
    destruct (parse code) as [err|imports] eqn:Hparse.
    { rewrite (scan_imports_parse_fails _ _ st code err) by done.
      by rewrite (scan_imports_parse_fails _ _ st' code err) by done. }
    rewrite (scan_imports_ok _ _ st code imports) by done.
    rewrite (scan_imports_ok _ _ st' code imports) by done.
    by destruct (options_minifyJS options) as [err|[[]|]].
  - destruct (decide (baseExt file = ".html")) as [Hh|Hh].
    + rewrite !optimizeFile_html by done. rewrite Hread.
      destruct (fs_read (files st') file) as [err|code] eqn:Hread'; [done|].
      destruct (appendHTMLToHead code _) as [err|code']; [done|].
      unfold fs_read in Hread, Hread'.
      destruct (files st' !! file) as [[c|]|] eqn:Hf'; try discriminate Hread'.
      rewrite !fs_write_file; [done|by eapply write_error_file..].
    + by rewrite !optimizeFile_other by tauto.
Qed.

(** When no path is dispatched twice, every call sees its file as the pass
    found it. *)
Lemma dispatch_all_own bd dest allFiles st st_ref promises st' :
  dispatch_all options bd dest allFiles st = (promises, st') →
  NoDup (joined bd allFiles) →
  (∀ f, f ∈ joined bd allFiles → files st !! f = files st_ref !! f) →
  Forall2 (fun rel pa =>
             pa.1 = path_join [bd; rel] ∧
             pa.2 = fst (optimizeFile options pa.1 dest st_ref))
          allFiles promises.
Proof.
  revert st promises st'.
  induction allFiles as [|rel rest IH]; intros st promises st'; simpl.
  { intros [= <- <-] _ _. constructor. }
  set (file := path_join [bd; rel]).
  destruct (optimizeFile options file dest (record (Dispatch file) st))
    as [a st1] eqn:Hopt.
  set (st2 := match a with
              | Settled r => record (Settle file (is_ok r)) st1
              | Awaiting _ _ => st1
              end).
  assert (files st2 = files st1) as Hf2 by (by destruct a).
  destruct (dispatch_all options bd dest rest st2) as [ps st3] eqn:Hrest.
  intros [= <- <-] [Hfresh Hnd]%NoDup_cons Href.
  constructor.
  - split; [done|]. simpl.
    rewrite <- (optimizeFile_local file dest (record (Dispatch file) st));
      [by rewrite Hopt|].
    simpl. apply Href. by left.
  - eapply IH; [exact Hrest|done|].
    intros f Hf. rewrite Hf2.
    apply optimizeFile_effect in Hopt as (evs & [_ _ Hfiles] & Hevs & _).
    rewrite Hfiles.
    + simpl. apply Href. by right.
    + assert (f ≠ file) as Hne by (by intros ->).
      destruct Hevs as [->|[-> _]]; set_solver.
Qed.

(** The first answer that rejects a call is an error of the minifier on the
    code of that call. *)
Lemma resume_all_cause tasks st thrown' st' err :
  Forall (task_live (files st)) tasks →
  NoDup (map task_file tasks) →
  resume_all None tasks st = (thrown', st') →
  thrown' = Some err →
  ∃ t cause, t ∈ tasks ∧ transform_minify t.1.2 = inl cause ∧
             err = trouble (task_file t) cause.
Proof.
  revert st.
  induction tasks as [|[[file code] resume] tasks IH]; intros st Hlive Hnd.
  { simpl. by intros [= <- <-]. }
  pose proof Hlive as [[[Hres _] Hfile] Hlive']%Forall_cons.
  unfold task_file in Hres, Hfile. simpl in Hres, Hfile. subst resume.
  pose proof Hnd as [Hfresh Hnd']%NoDup_cons.
  unfold task_file at 1 in Hfresh. simpl in Hfresh.
  simpl. destruct (transform_minify code) as [cause|js] eqn:Hmin.
  - rewrite resume_minify_rejected. simpl. intros Hr Hsome.
    apply resume_all_state in Hr as (_ & _ & _ & _ & Hkeep & _); [|done..].
    rewrite (Hkeep _ eq_refl) in Hsome. injection Hsome as <-.
    exists (file, code, resume_minify file), cause.
    split; [by left|]. by split.
  - rewrite (resume_minify_written _ _ _ code) by done. simpl.
    intros Hr Hsome.
    eapply IH in Hr as (t & cause & Ht & Hc & ->); [| |done|done].
    + exists t, cause. split; [by right|done].
    + simpl. by apply task_live_insert.
Qed.

End Rejections.

(** X8: when no path is dispatched twice, the error that a pass throws is
    one of three: the rejection of the call on an enumerated file, as that
    call runs on the disk the pass started with; the error of the minifier
    on the code of an enumerated script, under [Trouble optimizing JS]; or
    the error of opening the aggregator for writing on the disk that the
    pass leaves. *)
Theorem X8_error_of_a_pass `{Host}
    (config : SnowpackConfig) (options : option OptimizePluginOptions)
    (buildDirectory : string) (schedule : list nat) (st0 : State)
    (err : JsError) :
  let allFiles := scan config options buildDirectory (files st0) in
  let dest := preloadModuleFile config buildDirectory in
  let run := optimize config options buildDirectory schedule st0 in
  (∀ a b, a ∈ allFiles → b ∈ allFiles →
          path_join [buildDirectory; a] = path_join [buildDirectory; b] →
          a = b) →
  fst run = inl err →
  (∃ rel,
     rel ∈ allFiles ∧
     fst (optimizeFile options (path_join [buildDirectory; rel]) dest st0)
       = Settled (inl err)) ∨
  (∃ rel code cause,
     rel ∈ allFiles ∧
     (baseExt (path_join [buildDirectory; rel]) = ".js" ∨
      baseExt (path_join [buildDirectory; rel]) = ".mjs") ∧
     minify_on options ∧
     files st0 !! path_join [buildDirectory; rel] = Some (File code) ∧
     transform_minify code = inl cause ∧
     err = new_Error ("Trouble optimizing JS: " +:+
                      path_join [buildDirectory; rel] +:+ newline +:+
                      toString cause)) ∨
  write_error (files (snd run)) dest = Some err.
Proof.
  intros allFiles dest run Hinj.
  assert (NoDup (joined buildDirectory allFiles)) as Hnd.
  { apply joined_NoDup; [apply scan_NoDup|done]. }
  subst run. unfold optimize. cbv zeta. fold dest.
  change (files (record StartService (set_service Running st0)))
    with (files st0).
  fold allFiles.
  destruct (dispatch_all _ _ _ _ _) as [promises st3] eqn:Hd.
  pose proof (dispatch_all_own _ _ _ _ _ st0 _ _ Hd Hnd (fun f _ => eq_refl))
    as Hall.
  pose proof (dispatch_all_tasks _ _ _ _ _ _ _ Hd) as (Hlive & Hsub & _).
  set (answers := arrange schedule (awaiting promises)).
  assert (answers ≡ₚ awaiting promises) as Hperm by apply arrange_perm.
  destruct (first_rejection promises) as [err0|] eqn:Hrej.
  - intros [= ->]. left.
    apply first_rejection_Some in Hrej as [f Hin].
    destruct (Forall2_elem_of_r _ _ _ _ Hall Hin) as (rel & Hrel & Hf & Hopt).
    simpl in Hf, Hopt. subst f. by exists rel.
  - destruct (resume_all None answers st3) as [[err0|] st4] eqn:Hr.
    + intros [= ->]. right. left.
      eapply resume_all_cause in Hr as (t & cause & Ht & Hmin & ->);
        [| |by rewrite Hperm; eapply sublist_NoDup|done].
      2: { by rewrite Hperm. }
      rewrite Hperm in Ht. destruct t as [[f code] resume].
      apply awaiting_elem_of in Ht.
      destruct (Forall2_elem_of_r _ _ _ _ Hall Ht) as (rel & Hrel & Hf & Hopt).
      simpl in Hf, Hopt. subst f.
      destruct (optimizeFile options (path_join [buildDirectory; rel]) dest st0)
        as [a st'] eqn:Ho.
      simpl in Hopt. subst a.
      apply optimizeFile_awaiting in Ho as (Hs & _ & Hread & Hon).
      exists rel, code, cause. unfold task_file. simpl.
      repeat (split; [done|]). split; [by apply fs_read_inr|done].
    + rewrite writeModulePreloadFile_unfold. unfold fs_write.
      destruct (write_error (files st4) dest) as [e|] eqn:Hw; [|done].
      intros [= <-]. right. right. done.
Qed.

Lemma X8_error_of_a_pass_witness :
  let st0 := Sample.initial [("/out/app.js", File Sample.broken_js)] in
  let err := new_Error ("Trouble optimizing JS: /out/app.js" +:+ newline +:+
                        "Error: Parse error @:1:9") in
  let join := path_join (Host := Sample.host) in
  let ext := baseExt (Host := Sample.host) in
  let allFiles := scan (H := Sample.host) Sample.config (Sample.options false)
                       "/out" (files st0) in
  let dest := preloadModuleFile (H := Sample.host) Sample.config "/out" in
  let run := optimize (H := Sample.host) Sample.config (Sample.options false)
                      "/out" [] st0 in
  (∃ rel,
     rel ∈ allFiles ∧
     fst (optimizeFile (H := Sample.host) (Sample.options false)
            (join ["/out"; rel]) dest st0) = Settled (inl err)) ∨
  (∃ rel code cause,
     rel ∈ allFiles ∧
     (ext (join ["/out"; rel]) = ".js" ∨ ext (join ["/out"; rel]) = ".mjs") ∧
     minify_on (Sample.options false) ∧
     files st0 !! join ["/out"; rel] = Some (File code) ∧
     transform_minify (Host := Sample.host) code = inl cause ∧
     err = new_Error ("Trouble optimizing JS: " +:+ join ["/out"; rel] +:+
                      newline +:+ toString cause)) ∨
  write_error (files (snd run)) dest = Some err.
Proof.
  intros st0 err join ext allFiles dest run.
  apply (X8_error_of_a_pass (H := Sample.host) Sample.config
           (Sample.options false) "/out" [] st0 err).
  - intros a b Ha Hb.
    change (a ∈ ["app.js"]) in Ha. change (b ∈ ["app.js"]) in Hb.
    set_unfold in Ha; set_unfold in Hb.
    destruct Ha as [->|[]], Hb as [->|[]]; done.
  - by vm_compute.
Defined.

(** X9: the hook guards [options] when it builds the ignore list, but the
    script case reads [options.minifyJS] without a guard.  With [options]
    undefined, a pass that enumerates a script that is read and parsed
    throws; the call on that script is rejected with a TypeError under
    [Trouble optimizing JS], and the static imports of the script are in
    the set all the same. *)
Theorem X9_undefined_options_fail_on_scripts `{Host}
    (config : SnowpackConfig) (buildDirectory : string) (schedule : list nat)
    (st0 : State) (rel code : string) (imports : list ImportSpecifier) :
  let file := path_join [buildDirectory; rel] in
  let dest := preloadModuleFile config buildDirectory in
  let run := optimize config None buildDirectory schedule st0 in
  rel ∈ scan config None buildDirectory (files st0) →
  baseExt file = ".js" ∨ baseExt file = ".mjs" →
  files st0 !! file = Some (File code) →
  parse code = inr imports →
  is_ok (fst run) = false ∧
  (∃ cause,
     err_name cause = "TypeError" ∧
     fst (optimizeFile None file dest st0)
       = Settled (inl (trouble file cause))) ∧
  ∀ imp, imp ∈ imports → imp_d imp = -1 →
         path_resolve (path_dirname file)
           (js_substring code (imp_s imp) (imp_e imp))
           ∈ modulesToPreload (snd run).
Proof.
  intros file dest run Hin Hs Hfile Hparse.
  assert (∀ st, agree (files st0) (files st) →
            fst (optimizeFile None file dest st) =
            Settled (inl (trouble file
              (mkJsError "TypeError"
                 "Cannot read property 'minifyJS' of undefined")))) as Hcall.
  { intros st Hag. rewrite optimizeFile_script by done.
    rewrite (scan_imports_ok _ _ _ code imports); [done| |done].
    rewrite (fs_read_agree (files st0)) by auto using script_not_html.
    by apply fs_read_inr. }
  destruct (dispatch_all None buildDirectory dest
              (scan config None buildDirectory (files st0))
              (new_Set (record StartService (set_service Running st0))))
    as [promises st3] eqn:Hd.
  pose proof (dispatch_all_state _ _ _ _ _ _ _ Hd) as (_ & Hset & _ & Hall).
  split; [|split].
  - subst run. unfold optimize. cbv zeta. fold dest.
    change (files (record StartService (set_service Running st0)))
      with (files st0).
    rewrite Hd.
    destruct (Forall2_elem_of_l _ _ _ _ Hall Hin)
      as ([f a] & Hpa & Hf & st_f & Hag_f & Hopt).
    simpl in Hf, Hopt, Hag_f. subst f. fold file in Hpa, Hopt.
    rewrite Hcall in Hopt by done. subst a.
    apply first_rejection_None in Hpa.
    by destruct (first_rejection promises).
  - eexists. split; [|apply Hcall, agree_refl]. done.
  - intros imp Himp Hstatic. subst run.
    rewrite (optimize_modules _ _ _ _ _ promises st3) by done.
    apply Hset. right. exists rel. split; [done|].
    split; [done|]. exists code, imports, imp.
    split; [by apply fs_read_inr|done].
Qed.

Lemma X9_undefined_options_fail_on_scripts_witness :
  let st0 := Sample.initial [("/out/main.js", File Sample.main_js)] in
  let run := optimize (H := Sample.host) Sample.config None "/out" [] st0 in
  is_ok (fst run) = false ∧ "/out/util.js" ∈ modulesToPreload (snd run).
Proof.
  intros st0 run.
  destruct (X9_undefined_options_fail_on_scripts (H := Sample.host)
              Sample.config "/out" [] st0 "main.js" Sample.main_js
              [mkImport 8 17 (-1); mkImport 27 38 20])
    as (Hfail & _ & Hset).
  - vm_compute. set_solver.
  - left. reflexivity.
  - reflexivity.
  - reflexivity.
  - split; [exact Hfail|].
    apply (Hset (mkImport 8 17 (-1))); [by left|reflexivity].
Defined.

(** ** Without the minifier *)

(** X10: with [minifyJS] false or unset no call is ever suspended, so the
    pass ends, by returning or by throwing, after every transform that it
    dispatched has settled: the end of the pass is the last event, and
    before it each enumerated file was dispatched and settled. *)
Theorem X10_without_minifyJS_nothing_outlives_the_pass `{Host}
    (config : SnowpackConfig) (options : option OptimizePluginOptions)
    (buildDirectory : string) (schedule : list nat) (st0 : State) :
  let run := optimize config options buildDirectory schedule st0 in
  let allFiles := scan config options buildDirectory (files st0) in
  (∀ o, options = Some o → truthy (minifyJS o) = false) →
  ∃ pre ev,
    trace (snd run) = trace st0 ++ pre ++ [ev] ∧
    (ev = PassReturn ∧ fst run = inr tt ∨
     ∃ err, ev = PassThrow err ∧ fst run = inl err) ∧
    dispatched pre = joined buildDirectory allFiles ∧
    settled pre ≡ₚ dispatched pre.
Proof.
  intros run allFiles Hoff.
  destruct (optimize_shape config options buildDirectory schedule st0)
    as (evs_d & evs_r & tail & Htrace & Hend & _ & _ & Hdisp & Hsett & _ & _
        & Hmin & _).
  fold run in Htrace, Hend. fold allFiles in Hdisp.
  assert (evs_r = []) as ->.
  { destruct evs_r as [|ev evs_r]; [done|].
    destruct Hmin as (o & Ho & Hon); [done|].
    rewrite (Hoff o Ho) in Hon. discriminate. }
  rewrite app_nil_r in Hsett. rewrite Htrace.
  inversion Hend as [err Hfst Hsrv Htail|err Hthrow Hfst Hsrv Htail
                    |err Hnofail Htr Hfst Hsrv Htail
                    |Hnofail Htr Hfst Hsrv Htail].
  - exists (StartService :: evs_d), (PassThrow err).
    split; [done|]. split; [right; by exists err|]. done.
  - by apply elem_of_nil in Hthrow.
  - exists (StartService :: evs_d ++ [ReadSet]), (PassThrow err).
    split; [simpl; by rewrite <- app_assoc|].
    split; [right; by exists err|].
    change (dispatched (StartService :: ?l)) with (dispatched l).
    change (settled (StartService :: ?l)) with (settled l).
    rewrite dispatched_app, settled_app. simpl. by rewrite !app_nil_r.
  - exists (StartService :: evs_d ++
              [ReadSet; WriteFile (preloadModuleFile config buildDirectory);
               StopService]), PassReturn.
    split; [simpl; by rewrite <- app_assoc|]. split; [by left|].
    change (dispatched (StartService :: ?l)) with (dispatched l).
    change (settled (StartService :: ?l)) with (settled l).
    rewrite dispatched_app, settled_app. simpl. by rewrite !app_nil_r.
Qed.

Lemma X10_without_minifyJS_nothing_outlives_the_pass_witness :
  let st0 := Sample.initial [("/out/a.js", File Sample.broken_js);
                             ("/out/b.js", File Sample.big_js)] in
  let run := optimize (H := Sample.host) Sample.config (Sample.options false)
                      "/out" [] st0 in
  ∃ pre ev,
    trace (snd run) = trace st0 ++ pre ++ [ev] ∧
    (ev = PassReturn ∧ fst run = inr tt ∨
     ∃ err, ev = PassThrow err ∧ fst run = inl err) ∧
    dispatched pre = ["/out/a.js"; "/out/b.js"] ∧
    settled pre ≡ₚ dispatched pre.
Proof.
  intros st0 run.
  apply (X10_without_minifyJS_nothing_outlives_the_pass (H := Sample.host)
           Sample.config (Sample.options false) "/out" [] st0).
  intros o [= <-]. reflexivity.
Defined.
